(** * Branch-aware top-languages endpoint: a shallow embedding

    Source: [src/api/top-langs-branch.js] (and its variant
    [src/unnamed/part_000], which differs in the shape of the rendered items
    and in a debug dump, not in the functions embedded here unless said so).

    Conventions of the embedding:
    - JS strings are [string]s; the index arithmetic of the source only
      compares an index with 0 and cuts a suffix, so the byte view is enough.
      Case folding and whitespace are the ASCII ones.
    - JS numbers that hold byte counts are [Z]; the sums of the source are
      exact as long as they stay below 2^53, which is taken for granted.
    - a JS object used as a dictionary is an association list in insertion
      order (what [Object.entries] enumerates), because the order decides
      ties of the final sort.
    - [await fetch] is a call to an upstream oracle; every call is logged, and
      a [throw] is the [Throw] outcome of a small log-and-error monad.
    - a request gives each query parameter at most once, so that every value
      of [req.query] is a string; a repeated key, which the framework turns
      into an array, is not a [Query]. *)

From Stdlib Require Import String Ascii List ZArith QArith Bool Lia Permutation.
Import ListNotations.
Local Open Scope string_scope.
Local Open Scope Z_scope.

(** ** JS built-ins used by the source *)

Module JS.

(** Truthiness of a string value. *)
Definition truthy (s : string) : bool :=
  match s with EmptyString => false | String _ _ => true end.

(** Truthiness of a possibly [undefined] string ([!x] is its negation). *)
Definition truthy_opt (o : option string) : bool :=
  match o with None => false | Some s => truthy s end.

Definition lower_ascii (c : ascii) : ascii :=
  let n := nat_of_ascii c in
  if (Nat.leb 65 n && Nat.leb n 90)%bool then ascii_of_nat (n + 32) else c.

(** [String.prototype.toLowerCase] *)
Fixpoint toLowerCase (s : string) : string :=
  match s with
  | EmptyString => EmptyString
  | String c r => String (lower_ascii c) (toLowerCase r)
  end.

(** Scan of [s] from position [i], remembering in [last] the latest position
    where [c] was seen. *)
Fixpoint lastIndexOf_from (c : ascii) (s : string) (i last : Z) : Z :=
  match s with
  | EmptyString => last
  | String d r => lastIndexOf_from c r (i + 1) (if Ascii.eqb d c then i else last)
  end.

(** [s.lastIndexOf(c)] for a one-character needle: -1 when absent. *)
Definition lastIndexOf (s : string) (c : ascii) : Z :=
  lastIndexOf_from c s 0 (-1).

Fixpoint drop (n : nat) (s : string) : string :=
  match n, s with
  | O, _ => s
  | S _, EmptyString => EmptyString
  | S m, String _ r => drop m r
  end.

(** [s.slice(i)] for [0 <= i]. *)
Definition slice_from (s : string) (i : Z) : string := drop (Z.to_nat i) s.

(** [e.replace(/^\./, "")] *)
Definition strip_leading_dot (e : string) : string :=
  match e with
  | String c r => if Ascii.eqb c "."%char then r else e
  | EmptyString => e
  end.

(** [s.split(sep)] for a one-character separator. *)
Fixpoint split (sep : ascii -> bool) (s : string) : list string :=
  match s with
  | EmptyString => [EmptyString]
  | String c r =>
      if sep c then EmptyString :: split sep r
      else match split sep r with
           | seg :: segs => String c seg :: segs
           | [] => [String c EmptyString]
           end
  end.

(** The class [\s] restricted to ASCII. *)
Definition is_space (c : ascii) : bool :=
  let n := nat_of_ascii c in
  ((Nat.leb 9 n && Nat.leb n 13) || Nat.eqb n 32)%bool.

Fixpoint trim_left (s : string) : string :=
  match s with
  | String c r => if is_space c then trim_left r else s
  | EmptyString => EmptyString
  end.

Fixpoint trim_right (s : string) : string :=
  match s with
  | EmptyString => EmptyString
  | String c r =>
      let r' := trim_right r in
      if (is_space c && negb (truthy r'))%bool then EmptyString else String c r'
  end.

(** [String.prototype.trim] *)
Definition trim (s : string) : string := trim_right (trim_left s).

Definition is_digit (c : ascii) : bool :=
  let n := nat_of_ascii c in (Nat.leb 48 n && Nat.leb n 57)%bool.

Definition digit_val (c : ascii) : Z := Z.of_nat (nat_of_ascii c) - 48.

(** Value of the longest prefix of decimal digits, [None] when it is empty. *)
Fixpoint digits (s : string) (acc : option Z) : option Z :=
  match s with
  | String c r =>
      if is_digit c
      then digits r (Some (10 * match acc with Some a => a | None => 0 end + digit_val c))
      else acc
  | EmptyString => acc
  end.

(** [parseInt(s, 10)]: leading white space, an optional sign, then digits;
    [None] stands for NaN. *)
Definition parseInt (s : string) : option Z :=
  match trim_left s with
  | String c r =>
      if Ascii.eqb c "-"%char then option_map Z.opp (digits r None)
      else if Ascii.eqb c "+"%char then digits r None
      else digits (String c r) None
  | EmptyString => None
  end.

(** [arr.slice(0, e)] *)
Definition slice0 {A} (l : list A) (e : Z) : list A :=
  if e <? 0 then firstn (Z.to_nat (Z.max (Z.of_nat (length l) + e) 0)) l
  else firstn (Z.to_nat e) l.

End JS.

(** ** Objects used as dictionaries *)

Module Obj.

Definition t := list (string * Z).

(** [o[k]], [None] for [undefined] *)
Fixpoint get (k : string) (o : t) : option Z :=
  match o with
  | [] => None
  | (k', v) :: r => if String.eqb k k' then Some v else get k r
  end.

(** [o[k] || 0] *)
Definition get_or0 (k : string) (o : t) : Z :=
  match get k o with Some v => v | None => 0 end.

(** [o[k] = v]: an existing key keeps its place, a new one goes last. *)
Fixpoint set (k : string) (v : Z) (o : t) : t :=
  match o with
  | [] => [(k, v)]
  | (k', v') :: r => if String.eqb k k' then (k', v) :: r else (k', v') :: set k v r
  end.

(** [delete o[k]] *)
Fixpoint delete (k : string) (o : t) : t :=
  match o with
  | [] => []
  | (k', v') :: r => if String.eqb k k' then delete k r else (k', v') :: delete k r
  end.

(** [Object.keys(o)] *)
Definition keys (o : t) : list string := map fst o.

Definition has (k : string) (o : t) : bool :=
  match get k o with Some _ => true | None => false end.

End Obj.

(** ** The language catalog and the extension classifier *)

(** One value of the imported [languageMap]; both fields may be missing. *)
Record LangMeta := mkLangMeta {
  extensions : option (list string);
  color : option string
}.

(** [Object.entries(languageMap)] *)
Definition Catalog := list (string * LangMeta).

(** [exts.some(e => e.replace(/^\./, "") === ext)] with [exts = meta.extensions || []] *)
Definition claims_ext (meta : LangMeta) (ext : string) : bool :=
  existsb (fun e => String.eqb (JS.strip_leading_dot e) ext)
          (match extensions meta with Some es => es | None => [] end).

(** The [for ... of Object.entries(languageMap)] loop of [extToLanguage]. *)
Fixpoint first_language (cat : Catalog) (ext : string) : option string :=
  match cat with
  | [] => None
  | (lang, meta) :: r => if claims_ext meta ext then Some lang else first_language r ext
  end.

Definition extToLanguage (languageMap : Catalog) (filename : string) : option string :=
  let idx := JS.lastIndexOf filename "."%char in
  if idx <=? 0 then None
  else
    let ext := JS.toLowerCase (JS.slice_from filename (idx + 1)) in
    first_language languageMap ext.

(** ** Tree entries and per-tree aggregation *)

(** One element of the [tree] array of a git-trees answer. [size] is [None]
    when [typeof item.size !== "number"]. *)
Record TreeEntry := mkEntry {
  path : string;
  type : string;
  size : option Z
}.

(** One round of the loop of [aggregateByLanguageFromTree]. *)
Definition aggregate_item (languageMap : Catalog) (totals : Obj.t) (item : TreeEntry) : Obj.t :=
  if negb (String.eqb (type item) "blob") then totals
  else match size item with
       | None => totals
       | Some sz =>
           match extToLanguage languageMap (path item) with
           | None => totals
           | Some lang =>
               if negb (JS.truthy lang) then totals
               else Obj.set lang (Obj.get_or0 lang totals + sz) totals
           end
       end.

Definition aggregateByLanguageFromTree (languageMap : Catalog) (tree : list TreeEntry) : Obj.t :=
  fold_left (aggregate_item languageMap) tree [].

(** ** The upstream service and the effects of the source *)

(** An HTTP answer: its status and what the source reads from its JSON body. *)
Record Response (A : Type) := mkResponse {
  status : Z;
  json : A
}.
Arguments mkResponse {A}.
Arguments status {A}.
Arguments json {A}.

(** [r.ok] *)
Definition ok {A} (r : Response A) : bool := (200 <=? status r) && (status r <=? 299).

(** One element of the repository listing. *)
Record Repo := mkRepo {
  full_name : string;
  fork : bool;
  archived : bool
}.

(** The three GitHub endpoints the source calls. The listing body is [None]
    when it is not an array, the branch body carries [bJson?.commit?.sha] and
    the tree body [tJson?.tree]. *)
Record Upstream := mkUpstream {
  list_repos : string -> Z -> Response (option (list Repo));
  get_branch : string -> string -> string -> Response (option string);
  get_tree : string -> string -> string -> Response (option (list TreeEntry))
}.

(** The requests sent, in the order they are sent. *)
Inductive Call :=
| ListRepos (user : string) (page : Z)
| GetBranch (owner repo branch : string)
| GetTree (owner repo sha : string).

(** The [Error]s the source throws, with the status put in their message. *)
Inductive Failure :=
| ListReposFailed (user : string) (st : Z)
| BranchLookupFailed (owner repo branch : string) (st : Z)
| TreeFetchFailed (owner repo sha : string) (st : Z).

Inductive Outcome (A : Type) :=
| Return (a : A)
| Throw (e : Failure).
Arguments Return {A}.
Arguments Throw {A}.

(** Computations that append to the log of calls and may throw. *)
Definition M (A : Type) := list Call -> Outcome A * list Call.

Definition ret {A} (a : A) : M A := fun log => (Return a, log).

Definition throw {A} (e : Failure) : M A := fun log => (Throw e, log).

Definition bind {A B} (m : M A) (k : A -> M B) : M B :=
  fun log =>
    match m log with
    | (Return a, log') => k a log'
    | (Throw e, log') => (Throw e, log')
    end.

Notation "x <- m ;; k" := (bind m (fun x => k))
  (at level 61, m at next level, right associativity).

(** [await fetch(url)]: the call is recorded, the answer is the oracle's. *)
Definition fetch {A} (c : Call) (answer : Response A) : M (Response A) :=
  fun log => (Return answer, (log ++ [c])%list).

(** Run from an empty log. *)
Definition run {A} (m : M A) : Outcome A * list Call := m [].

Section Pipeline.

Variable languageMap : Catalog.
Variable gh : Upstream.

(** The [while (page <= maxPages)] loop of [fetchAllUserRepos]; [pages] is
    the number of pages still allowed, [maxPages - page + 1]. *)
Fixpoint list_pages (user : string) (includeForks includeArchived : bool)
  (pages : nat) (page : Z) (acc : list Repo) : M (list Repo) :=
  match pages with
  | O => ret acc
  | S pages' =>
      r <- fetch (ListRepos user page) (list_repos gh user page) ;;
      if negb (ok r) then throw (ListReposFailed user (status r))
      else match json r with
           | None | Some [] => ret acc
           | Some js =>
               list_pages user includeForks includeArchived pages' (page + 1)
                 (acc ++ filter (fun repo =>
                                   if negb includeForks && fork repo then false
                                   else if negb includeArchived && archived repo then false
                                   else true) js)%list
           end
  end.

(** [fetchAllUserRepos] with its default [maxPages = 5]; the token only goes
    into the request headers. *)
Definition fetchAllUserRepos (token user : string) (includeForks includeArchived : bool)
  : M (list string) :=
  acc <- list_pages user includeForks includeArchived 5%nat 1 [] ;;
  ret (map full_name acc).

Definition fetchRepoTreeByBranch (token owner repo branch : string) : M (list TreeEntry) :=
  bRes <- fetch (GetBranch owner repo branch) (get_branch gh owner repo branch) ;;
  if negb (ok bRes) then
    if status bRes =? 404 then ret []
    else throw (BranchLookupFailed owner repo branch (status bRes))
  else
    match json bRes with
    | None => ret []
    | Some sha =>
        if negb (JS.truthy sha) then ret []
        else
          tRes <- fetch (GetTree owner repo sha) (get_tree gh owner repo sha) ;;
          if negb (ok tRes) then
            if status tRes =? 409 then ret []
            else throw (TreeFetchFailed owner repo sha (status tRes))
          else ret (match json tRes with Some tree => tree | None => [] end)
    end.

(** [for (const [k, v] of Object.entries(byLang)) grand[k] = (grand[k] || 0) + v] *)
Definition merge_totals (grand byLang : Obj.t) : Obj.t :=
  fold_left (fun g kv => Obj.set (fst kv) (Obj.get_or0 (fst kv) g + snd kv) g) byLang grand.

(** [const [owner, repo] = full.split("/")] *)
Definition owner_repo (full : string) : option string * option string :=
  match JS.split (Ascii.eqb "/"%char) full with
  | o :: r :: _ => (Some o, Some r)
  | [o] => (Some o, None)
  | [] => (None, None)
  end.

(** The loop of [aggregateRepos], started from the running total [grand]. *)
Fixpoint aggregate_loop (token : string) (repoFullNames : list string) (branch : string)
  (grand : Obj.t) : M Obj.t :=
  match repoFullNames with
  | [] => ret grand
  | full :: rest =>
      let (owner, repo) := owner_repo full in
      if negb (JS.truthy_opt owner) || negb (JS.truthy_opt repo)
      then aggregate_loop token rest branch grand
      else
        tree <- fetchRepoTreeByBranch token
                  (match owner with Some o => o | None => "" end)
                  (match repo with Some r => r | None => "" end) branch ;;
        match tree with
        | [] => aggregate_loop token rest branch grand
        | _ =>
            let byLang := aggregateByLanguageFromTree languageMap tree in
            aggregate_loop token rest branch (merge_totals grand byLang)
        end
  end.

Definition aggregateRepos (token : string) (repoFullNames : list string) (branch : string)
  : M Obj.t :=
  aggregate_loop token repoFullNames branch [].

End Pipeline.

(** ** Request parsing helpers *)

(** [toArray]: the pieces between commas and white space, empty ones dropped
    by [filter(Boolean)] (so splitting at every separator or at every run of
    separators gives the same list). *)
Definition toArray (q : string) : list string :=
  if negb (JS.truthy q) then []
  else filter JS.truthy
         (map JS.trim (JS.split (fun c => Ascii.eqb c ","%char || JS.is_space c) q)).

Definition toBool (q : option string) (def : bool) : bool :=
  match q with
  | None => def
  | Some s => existsb (String.eqb (JS.toLowerCase s)) ["1"; "true"; "yes"; "y"; "on"]
  end.

(** Modelled from the spec: [clampValue] is imported from the card utilities
    of the repository, which are not among the sources; the spec calls its
    result the value "clamped into" the interval given by the two bounds. *)
Definition clampValue (number lo hi : Z) : Z := Z.max lo (Z.min number hi).

(** [new Set(toArray(q).map(x => x.toLowerCase()))], kept as the list of its
    elements; only membership is asked of it. *)
Definition lower_set (q : string) : list string := map JS.toLowerCase (toArray q).

(** [set.has(x)] *)
Definition set_has (s : list string) (x : string) : bool := existsb (String.eqb x) s.

(** [clampValue(parseInt(q, 10) || dflt, lo, hi)] *)
Definition clamped_param (q : string) (dflt lo hi : Z) : Z :=
  clampValue (match JS.parseInt q with
              | Some 0 | None => dflt
              | Some n => n
              end) lo hi.

(** ** Ranking (the tail of [handler]) *)

Module Ranked.
Record item := mk {
  name : string;
  size : Z;
  percent : Q
}.
End Ranked.

(** [for (const k of Object.keys(totals)) if (hideList.has(k.toLowerCase())) delete totals[k]] *)
Definition hide_languages (hideList : list string) (totals : Obj.t) : Obj.t :=
  fold_left (fun t k => if set_has hideList (JS.toLowerCase k) then Obj.delete k t else t)
            (Obj.keys totals) totals.

(** Where [a] lands among entries that all came after it, under the
    comparator [(a, b) => b[1] - a[1]] of a stable sort. *)
Fixpoint insert_desc (a : string * Z) (l : list (string * Z)) : list (string * Z) :=
  match l with
  | [] => [a]
  | b :: r => if 0 <? snd b - snd a then b :: insert_desc a r else a :: b :: r
  end.

(** [entries.sort((a, b) => b[1] - a[1])]: the sort is stable, so its result
    is the one of a stable insertion sort. *)
Definition sort_desc (entries : list (string * Z)) : list (string * Z) :=
  fold_right insert_desc [] entries.

(** [top.reduce((acc, [, v]) => acc + v, 0)] *)
Definition total_bytes (top : list (string * Z)) : Z :=
  fold_left (fun acc kv => acc + snd kv) top 0.

(** [Object.entries(totals).sort(...).slice(0, topN)] after the hidden
    languages are deleted. *)
Definition top_entries (totals : Obj.t) (hideList : list string) (topN : Z)
  : list (string * Z) :=
  JS.slice0 (sort_desc (hide_languages hideList totals)) topN.

(** [top.map(([name, size]) => ({ name, size, percent: totalBytes ? (size / totalBytes) * 100 : 0 }))];
    the quotient is taken in the rationals. *)
Definition rank (totals : Obj.t) (hideList : list string) (topN : Z) : list Ranked.item :=
  let top := top_entries totals hideList topN in
  let totalBytes := total_bytes top in
  map (fun kv =>
         Ranked.mk (fst kv) (snd kv)
           (if totalBytes =? 0 then 0%Q
            else (inject_Z (snd kv) / inject_Z totalBytes * 100)%Q))
      top.

(** ** The request handler *)

(** [req.query] of a request that gives each parameter at most once; a field
    is [None] when the parameter is absent. *)
Record Query := mkQuery {
  user : option string;
  branch : option string;
  exclude_repos : option string;
  include_forks : option string;
  include_archived : option string;
  hide : option string;
  hide_title : option string;
  card_width : option string;
  layout : option string;
  langs_count : option string;
  theme : option string;
  bg_color : option string;
  title_color : option string;
  text_color : option string;
  icon_color : option string;
  border_color : option string;
  hide_border : option string;
  locale : option string;
  custom_title : option string;
  max_repos : option string;
  debug : option string
}.

(** Destructuring default: [x = d]. *)
Definition default (d : string) (o : option string) : string :=
  match o with Some s => s | None => d end.

(** What the card renderer is given for one language. *)
Record CardLang := mkCardLang {
  card_name : string;
  card_size : Z;
  card_color : option string
}.

(** The second argument of [renderTopLanguages]. [opt_card_width] is the
    string that the source converts with [Number] when it is truthy. *)
Record RenderOptions := mkRenderOptions {
  opt_hide_title : bool;
  opt_card_width : option string;
  opt_layout : string;
  opt_langs_count : Z;
  opt_theme : option string;
  opt_bg_color : option string;
  opt_title_color : option string;
  opt_text_color : option string;
  opt_icon_color : option string;
  opt_border_color : option string;
  opt_hide_border : bool;
  opt_locale : option string;
  opt_custom_title : string
}.

(** What [res.send] is given. *)
Inductive Body :=
| Text (msg : string)
| ErrorMessage (e : Failure)
| Svg (svg : string)
| DebugJson (branch : string) (repos : list string) (totals : Obj.t) (items : list CardLang).

Record Reply := mkReply {
  code : Z;
  headers : list (string * string);
  body : Body
}.

(** [try { ... } catch (e) { res.status(500).send(`Error: ...`) }] *)
Definition catch_all (m : M Reply) : M Reply :=
  fun log =>
    match m log with
    | (Return r, log') => (Return r, log')
    | (Throw e, log') => (Return (mkReply 500 [] (ErrorMessage e)), log')
    end.

Section Handler.

Variable languageMap : Catalog.
Variable gh : Upstream.
(** The card renderer, an external collaborator. *)
Variable renderTopLanguages : list CardLang -> RenderOptions -> string.

Definition render_options (q : Query) (topN : Z) : RenderOptions :=
  let branch := default "develop" (branch q) in
  mkRenderOptions
    (toBool (hide_title q) false)
    (if JS.truthy_opt (card_width q) then card_width q else None)
    (default "compact" (layout q))
    topN
    (theme q) (bg_color q) (title_color q) (text_color q) (icon_color q) (border_color q)
    (toBool (hide_border q) false)
    (locale q)
    (if JS.truthy_opt (custom_title q) then default "" (custom_title q)
     else "Top Languages (" ++ branch ++ ")").

(** [listed.map(r => r.full_name).filter(...).slice(0, maxRepos)] *)
Definition select_repos (listed : list string) (exclude : list string) (maxRepos : Z)
  : list string :=
  JS.slice0
    (filter (fun full =>
               let name := match JS.split (Ascii.eqb "/"%char) full with
                           | _ :: r :: _ => JS.toLowerCase r
                           | _ => ""
                           end in
               negb (set_has exclude name))
            listed)
    maxRepos.

(** [handler] of [src/api/top-langs-branch.js]; [PAT_1] is
    [process.env.PAT_1]. *)
Definition handler (PAT_1 : option string) (q : Query) : M Reply :=
  catch_all (
    let branch := default "develop" (branch q) in
    let token := PAT_1 in
    if negb (JS.truthy_opt token) then ret (mkReply 500 [] (Text "PAT_1 env not set"))
    else
      let exclude := lower_set (default "" (exclude_repos q)) in
      let hideList := lower_set (default "" (hide q)) in
      let allowForks := toBool (include_forks q) false in
      let allowArchived := toBool (include_archived q) false in
      let maxRepos := clamped_param (default "60" (max_repos q)) 60 1 300 in
      if negb (JS.truthy_opt (user q)) then ret (mkReply 400 [] (Text "Provide ?user=username"))
      else
        listed <- fetchAllUserRepos gh (default "" token) (default "" (user q))
                    allowForks allowArchived ;;
        let repoFullNames := select_repos listed exclude maxRepos in
        match repoFullNames with
        | [] => ret (mkReply 404 [] (Text "No repositories to analyze after filters."))
        | _ =>
            totals <- aggregateRepos languageMap gh (default "" token) repoFullNames branch ;;
            let topN := clamped_param (default "6" (langs_count q)) 6 1 20 in
            let items := rank totals hideList topN in
            let svg := renderTopLanguages
                         (map (fun i => mkCardLang (Ranked.name i) (Ranked.size i) None) items)
                         (render_options q topN) in
            ret (mkReply 200
                   [("Content-Type", "image/svg+xml");
                    ("Cache-Control", "max-age=1800, s-maxage=1800")]
                   (Svg svg))
        end).

(** [languageMap[name]?.color || "#858585"] *)
Definition color_of (name : string) : string :=
  match find (fun e => String.eqb name (fst e)) languageMap with
  | Some (_, meta) => if JS.truthy_opt (color meta) then default "" (color meta) else "#858585"
  | None => "#858585"
  end.

(** [handler] of the variant [src/unnamed/part_000]: the same checks in the
    same order, items that carry a colour instead of a percentage, and a
    debug dump. *)
Definition handler_variant (PAT_1 : option string) (q : Query) : M Reply :=
  catch_all (
    let branch := default "develop" (branch q) in
    let token := PAT_1 in
    if negb (JS.truthy_opt token) then ret (mkReply 500 [] (Text "PAT_1 env not set"))
    else if negb (JS.truthy_opt (user q)) then ret (mkReply 400 [] (Text "Provide ?user=username"))
    else
      let exclude := lower_set (default "" (exclude_repos q)) in
      let hideList := lower_set (default "" (hide q)) in
      let allowForks := toBool (include_forks q) false in
      let allowArchived := toBool (include_archived q) false in
      let maxRepos := clamped_param (default "60" (max_repos q)) 60 1 300 in
      listed <- fetchAllUserRepos gh (default "" token) (default "" (user q))
                  allowForks allowArchived ;;
      let repoFullNames := select_repos listed exclude maxRepos in
      match repoFullNames with
      | [] => ret (mkReply 404 [] (Text "No repositories to analyze after filters."))
      | _ =>
          totals <- aggregateRepos languageMap gh (default "" token) repoFullNames branch ;;
          let totals := hide_languages hideList totals in
          let topN := clamped_param (default "6" (langs_count q)) 6 1 20 in
          let top := JS.slice0 (sort_desc totals) topN in
          let items := map (fun kv => mkCardLang (fst kv) (snd kv) (Some (color_of (fst kv)))) top in
          let svg := renderTopLanguages items (render_options q topN) in
          if toBool (debug q) false then
            ret (mkReply 200 [("Content-Type", "application/json; charset=utf-8")]
                   (DebugJson branch repoFullNames totals items))
          else
            ret (mkReply 200
                   [("Content-Type", "image/svg+xml");
                    ("Cache-Control", "max-age=1800, s-maxage=1800")]
                   (Svg svg))
      end).

End Handler.

(** * Vocabulary of the statements *)

(** ** Counting entries and summing dictionaries *)

(** The entry [item] counts for the language [L]: it is a blob, its size is
    a number, and its path is classified as [L]. *)
Definition counts_for (languageMap : Catalog) (L : string) (item : TreeEntry) : bool :=
  String.eqb (type item) "blob"
  && match size item with Some _ => true | None => false end
  && match extToLanguage languageMap (path item) with
     | Some l => String.eqb l L
     | None => false
     end.

Definition size_or0 (item : TreeEntry) : Z :=
  match size item with Some z => z | None => 0 end.

(** Sum of the sizes of the entries of [tree]. *)
Definition sum_sizes (tree : list TreeEntry) : Z :=
  fold_right (fun item acc => size_or0 item + acc) 0 tree.

(** Sum over the dictionaries that have the key [k]; no key when none has it. *)
Definition pointwise_sum (k : string) (tots : list Obj.t) : option Z :=
  if existsb (Obj.has k) tots
  then Some (fold_right (fun o acc => Obj.get_or0 k o + acc) 0 tots)
  else None.

(** No entry of the tree has a negative size. *)
Definition tree_sizes_nonneg (tree : list TreeEntry) : bool :=
  forallb (fun item => match size item with Some z => 0 <=? z | None => true end) tree.

(** ** Resolution of the listed repositories *)

Section Resolution.

Variable languageMap : Catalog.
Variable gh : Upstream.
Variable token : string.
Variable branch : string.

(** Outcome of resolving the tree of [full], [None] when the loop of
    [aggregateRepos] skips the name without a call. *)
Definition resolved (full : string) : option (Outcome (list TreeEntry)) :=
  let (owner, repo) := owner_repo full in
  if negb (JS.truthy_opt owner) || negb (JS.truthy_opt repo) then None
  else Some (fst (run (fetchRepoTreeByBranch gh token
                         (match owner with Some o => o | None => "" end)
                         (match repo with Some r => r | None => "" end) branch))).

(** The tree of [full] is resolved without an error (or [full] is skipped). *)
Definition resolves (full : string) : bool :=
  match resolved full with
  | Some (Throw _) => false
  | _ => true
  end.

(** The per-repository totals of [full]. *)
Definition repo_totals (full : string) : Obj.t :=
  match resolved full with
  | Some (Return tree) => aggregateByLanguageFromTree languageMap tree
  | _ => []
  end.

End Resolution.

(** The trees that the upstream serves for [names] have no negative size. *)
Definition served_sizes_nonneg (gh : Upstream) (token branch : string) (names : list string)
  : bool :=
  forallb (fun full => match resolved gh token branch full with
                       | Some (Return tree) => tree_sizes_nonneg tree
                       | _ => true
                       end) names.

(** ** Ranked items *)

(** The language named [k] is not hidden by [hideList]. *)
Definition visible (hideList : list string) (kv : string * Z) : bool :=
  negb (set_has hideList (JS.toLowerCase (fst kv))).

(** The name is in the hide set, compared without regard to case. *)
Definition hidden_ci (hideSet : list string) (name : string) : bool :=
  existsb (fun h => String.eqb (JS.toLowerCase h) (JS.toLowerCase name)) hideSet.

(** Sizes never go up along the list. *)
Inductive descending : list (string * Z) -> Prop :=
| desc_nil : descending []
| desc_cons a l : Forall (fun b => snd b <= snd a) l -> descending l -> descending (a :: l).

(** Sum of the sizes of ranked items. *)
Definition ranked_total (items : list Ranked.item) : Z :=
  fold_right (fun i acc => Ranked.size i + acc) 0 items.

(** ** Path segments *)

(** The part of [path] after its last slash. *)
Definition final_segment (path : string) : string :=
  last (JS.split (Ascii.eqb "/"%char) path) "".

(** The segment has no dot, or its only dot is its first character. *)
Definition no_extension (segment : string) : bool :=
  JS.lastIndexOf segment "."%char <=? 0.

(** ** The repository listing *)

(** A repository served on one of the pages [first .. first + n - 1], on a
    page answered with success, that passes the fork and archive filters. *)
Definition served_and_kept (gh : Upstream) (user : string)
  (includeForks includeArchived : bool) (first : Z) (n : nat) (r : Repo) : Prop :=
  exists page js,
    first <= page < first + Z.of_nat n
    /\ ok (list_repos gh user page) = true
    /\ json (list_repos gh user page) = Some js
    /\ In r js
    /\ (fork r = true -> includeForks = true)
    /\ (archived r = true -> includeArchived = true).

(** ** Logs of upstream calls *)

(** The computation only appends its own calls to the log it is given, and
    its outcome does not depend on that log. *)
Definition appends_only {A} (m : M A) : Prop :=
  forall log, m log = (fst (run m), (log ++ snd (run m))%list).

(** The pages [first], [first + 1], ... of the listing of [user], [k] of them. *)
Definition listing_calls (user : string) (first : Z) (k : nat) : list Call :=
  map (fun i => ListRepos user (first + Z.of_nat i)) (seq 0 k).

(** The name splits into a non-empty owner and a non-empty repository. *)
Definition well_formed (full : string) : bool :=
  let (owner, repo) := owner_repo full in
  JS.truthy_opt owner && JS.truthy_opt repo.

(** The calls that the loop of [aggregateRepos] sends for the name [full]. *)
Definition calls_for (gh : Upstream) (token branch full : string) : list Call :=
  let (owner, repo) := owner_repo full in
  if negb (JS.truthy_opt owner) || negb (JS.truthy_opt repo) then []
  else snd (run (fetchRepoTreeByBranch gh token
                   (match owner with Some o => o | None => "" end)
                   (match repo with Some r => r | None => "" end) branch)).

(** The names up to and including the first one whose tree is not resolved. *)
Fixpoint through_first_failure (gh : Upstream) (token branch : string) (names : list string)
  : list string :=
  match names with
  | [] => []
  | full :: rest =>
      if resolves gh token branch full
      then full :: through_first_failure gh token branch rest
      else [full]
  end.

(** The error of the first name whose tree is not resolved. *)
Fixpoint first_failure (gh : Upstream) (token branch : string) (names : list string)
  : option Failure :=
  match names with
  | [] => None
  | full :: rest =>
      match resolved gh token branch full with
      | Some (Throw e) => Some e
      | _ => first_failure gh token branch rest
      end
  end.

(** ** Stages of the handler *)

(** The listing request of the handler for the query [q]. *)
Definition listing (gh : Upstream) (PAT_1 : option string) (q : Query) : M (list string) :=
  fetchAllUserRepos gh (default "" PAT_1) (default "" (user q))
    (toBool (include_forks q) false) (toBool (include_archived q) false).

(** The repositories that the handler analyses among the listed ones. *)
Definition selection (q : Query) (listed : list string) : list string :=
  select_repos listed (lower_set (default "" (exclude_repos q)))
    (clamped_param (default "60" (max_repos q)) 60 1 300).

(** The headers of a rendered card. *)
Definition svg_headers : list (string * string) :=
  [("Content-Type", "image/svg+xml"); ("Cache-Control", "max-age=1800, s-maxage=1800")].

(** The cards that [handler] hands to the renderer. *)
Definition cards (q : Query) (totals : Obj.t) : list CardLang :=
  map (fun i => mkCardLang (Ranked.name i) (Ranked.size i) None)
      (rank totals (lower_set (default "" (hide q)))
            (clamped_param (default "6" (langs_count q)) 6 1 20)).

(** The part of a full name between its first and its second slash. *)
Definition repo_part (full : string) : string :=
  match JS.split (Ascii.eqb "/"%char) full with
  | _ :: r :: _ => r
  | _ => ""
  end.

(** The call is one that the query [q] allows: a listing of the requested
    user, or a branch or tree request for a repository that is not excluded,
    on the requested branch. *)
Definition call_respects (q : Query) (c : Call) : bool :=
  match c with
  | ListRepos u _ => String.eqb u (default "" (user q))
  | GetBranch _ r b =>
      negb (set_has (lower_set (default "" (exclude_repos q))) (JS.toLowerCase r))
      && String.eqb b (default "develop" (branch q))
  | GetTree _ r _ =>
      negb (set_has (lower_set (default "" (exclude_repos q))) (JS.toLowerCase r))
  end.

(** ** Strings and lists of words *)

(** Every character of [s] satisfies [p]. *)
Fixpoint all_chars (p : ascii -> bool) (s : string) : bool :=
  match s with
  | EmptyString => true
  | String c r => p c && all_chars p r
  end.

(** The characters at which [toArray] cuts: the comma and white space. *)
Definition list_separator (c : ascii) : bool := Ascii.eqb c ","%char || JS.is_space c.

(** A non-empty word without a comma or white space. *)
Definition word (t : string) : bool :=
  JS.truthy t && all_chars (fun c => negb (list_separator c)) t.

(** The string has no dot. *)
Definition dotless (s : string) : bool := all_chars (fun c => negb (Ascii.eqb c "."%char)) s.

(** The string is its own lower-case form. *)
Definition lower_case (s : string) : bool := String.eqb (JS.toLowerCase s) s.

(** Sum of the percentages of ranked items. *)
Definition percent_total (items : list Ranked.item) : Q :=
  fold_right (fun i acc => (Ranked.percent i + acc)%Q) 0%Q items.

(** ** Edge cases of a run *)

(** The name [full] is skipped or resolves to the empty tree. *)
Definition yields_no_tree (gh : Upstream) (token branch full : string) : bool :=
  match resolved gh token branch full with
  | Some (Return []) | None => true
  | _ => false
  end.

(** The filter that [fetchAllUserRepos] applies to each page. *)
Definition kept (includeForks includeArchived : bool) (repo : Repo) : bool :=
  if negb includeForks && fork repo then false
  else if negb includeArchived && archived repo then false
  else true.

(** The repositories of the page [page] of the listing of [user]. *)
Definition page_body (gh : Upstream) (user : string) (page : Z) : list Repo :=
  match json (list_repos gh user page) with Some js => js | None => [] end.

(** The page is answered with success and lists at least one repository. *)
Definition full_page (gh : Upstream) (user : string) (page : Z) : bool :=
  ok (list_repos gh user page)
  && match page_body gh user page with [] => false | _ => true end.

(** The page is answered with success and lists nothing. *)
Definition last_page (gh : Upstream) (user : string) (page : Z) : bool :=
  ok (list_repos gh user page)
  && match page_body gh user page with [] => true | _ => false end.

(** The kept repositories of the pages [first], ..., [first + k - 1]. *)
Definition kept_of_pages (gh : Upstream) (user : string) (includeForks includeArchived : bool)
  (first : Z) (k : nat) : list Repo :=
  flat_map (fun i => filter (kept includeForks includeArchived)
                            (page_body gh user (first + Z.of_nat i)))
           (seq 0 k).

(** The cards that the variant of the handler hands to the renderer. *)
Definition variant_cards (languageMap : Catalog) (q : Query) (totals : Obj.t) : list CardLang :=
  map (fun kv => mkCardLang (fst kv) (snd kv) (Some (color_of languageMap (fst kv))))
      (JS.slice0 (sort_desc (hide_languages (lower_set (default "" (hide q))) totals))
                 (clamped_param (default "6" (langs_count q)) 6 1 20)).

(** The headers of a debug dump. *)
Definition json_headers : list (string * string) :=
  [("Content-Type", "application/json; charset=utf-8")].

(** Name and size of a card. *)
Definition card_entry (c : CardLang) : string * Z := (card_name c, card_size c).

(** ** Non-empty files of a language *)

(** The tree that the loop of [aggregateRepos] aggregates for [full]: the
    resolved one, or none when the name is skipped. *)
Definition served_tree (gh : Upstream) (token branch full : string) : list TreeEntry :=
  match resolved gh token branch full with
  | Some (Return tree) => tree
  | _ => []
  end.

(** Some entry of the tree counts for [L] and is not empty. *)
Definition has_nonempty_file (languageMap : Catalog) (L : string) (tree : list TreeEntry)
  : bool :=
  existsb (fun item => counts_for languageMap L item && (0 <? size_or0 item)) tree.

(** Some counted file of [L], in the tree of one of the names, is not empty. *)
Definition some_file_nonempty (languageMap : Catalog) (gh : Upstream)
  (token branch : string) (names : list string) (L : string) : bool :=
  existsb (fun full => has_nonempty_file languageMap L (served_tree gh token branch full))
          names.

(** ** A small concrete world *)

Module Demo.

Definition meta (exts : list string) : LangMeta := mkLangMeta (Some exts) None.

Definition catalog : Catalog :=
  [("Go", meta [".go"]);
   ("Rust", meta [".rs"]);
   ("Python", meta [".py"; ".pyw"]);
   ("JavaScript", meta [".js"; ".mjs"]);
   ("Ignore List", meta [".gitignore"])].

Definition blob (p : string) (sz : Z) : TreeEntry := mkEntry p "blob" (Some sz).

Definition tree_A : list TreeEntry := [blob "main.go" 100].

Definition tree_B : list TreeEntry :=
  [blob "cmd/tool.go" 50; mkEntry "src" "tree" None; blob "src/lib.rs" 30].

(** A package that only holds an empty module file. *)
Definition tree_E : list TreeEntry := [blob "pkg/__init__.py" 0].

Definition named (a b : string) : bool := String.eqb a b.

(** The user [w] owns [w/A] and [w/treefail], any other user [u/A] and [u/B].
    Every repository has the branch except [missing] (404), [broken] (500)
    and [nosha] (a 200 answer without a commit); the tree of [empty] is
    refused with 409 and the one of [treefail] with 502. *)
Definition gh : Upstream :=
  mkUpstream
    (fun user page =>
       if negb (page =? 1) then mkResponse 200 (Some [])
       else if named user "w"
       then mkResponse 200 (Some [mkRepo "w/A" false false; mkRepo "w/treefail" false false])
       else mkResponse 200 (Some [mkRepo "u/A" false false; mkRepo "u/B" false false]))
    (fun owner repo branch =>
       if named repo "missing" then mkResponse 404 None
       else if named repo "broken" then mkResponse 500 None
       else if named repo "nosha" then mkResponse 200 None
       else mkResponse 200 (Some ("sha-" ++ repo)))
    (fun owner repo sha =>
       if named repo "A" then mkResponse 200 (Some tree_A)
       else if named repo "B" then mkResponse 200 (Some tree_B)
       else if named repo "E" then mkResponse 200 (Some tree_E)
       else if named repo "empty" then mkResponse 409 None
       else if named repo "treefail" then mkResponse 502 None
       else mkResponse 200 None).

(** A renderer that only reports how many languages it was given. *)
Definition render (items : list CardLang) (o : RenderOptions) : string :=
  if (length items =? 0)%nat then "<svg/>" else "<svg>...</svg>".

Definition no_params : Query :=
  mkQuery None None None None None None None None None None None
          None None None None None None None None None None.

Definition for_user (u : string) : Query :=
  mkQuery (Some u) None None None None None None None None None None
          None None None None None None None None None None.

(** Twenty-five languages of distinct sizes. *)
Definition many_totals : Obj.t :=
  map (fun n => (String (ascii_of_nat (65 + n)) EmptyString, Z.of_nat (100 + n))) (seq 0 25).

End Demo.

(** A listing that serves one repository per page and answers 503 from the
    page [n] on; branches and trees are those of [Demo.gh]. *)
Definition failing_from (n : Z) : Upstream :=
  mkUpstream
    (fun user page =>
       if page <? n then mkResponse 200 (Some [mkRepo "u/A" false false])
       else mkResponse 503 None)
    (get_branch Demo.gh) (get_tree Demo.gh).

(** The query [?user=u&exclude_repos=...]. *)
Definition excluding (u excl : string) : Query :=
  mkQuery (Some u) None (Some excl) None None None None None None None None
          None None None None None None None None None None.

(** Totals of three languages. *)
Definition three_totals : Obj.t := [("Go", 150); ("Rust", 30); ("Python", 10)].

(** The query [?user=u&debug=1&hide=...]. *)
Definition debugging (u hidden : string) : Query :=
  mkQuery (Some u) None None None None (Some hidden) None None None None None
          None None None None None None None None None (Some "1").

(** An upstream whose listing has two pages of one repository each. *)
Definition two_pages : Upstream :=
  mkUpstream
    (fun user page =>
       if page =? 1 then mkResponse 200 (Some [mkRepo "u/A" false false])
       else if page =? 2
       then mkResponse 200 (Some [mkRepo "u/old" false true; mkRepo "u/B" false false])
       else mkResponse 200 (Some []))
    (get_branch Demo.gh) (get_tree Demo.gh).

(** An upstream whose listing serves the given names on its first page;
    branches and trees are those of [Demo.gh]. *)
Definition serving (names : list string) : Upstream :=
  mkUpstream
    (fun user page =>
       if page =? 1 then mkResponse 200 (Some (map (fun n => mkRepo n false false) names))
       else mkResponse 200 (Some []))
    (get_branch Demo.gh) (get_tree Demo.gh).

(** Status of the reply of a handler run, when there is one. *)
Definition reply_code (m : M Reply) : option Z :=
  match fst (run m) with
  | Return r => Some (code r)
  | Throw _ => None
  end.

(** * Properties *)

(** ** Dictionaries *)

Section ObjFacts.

Lemma get_set_same k v o : Obj.get k (Obj.set k v o) = Some v.
Proof.
  induction o as [|[k' v'] r IH]; simpl.
  - now rewrite String.eqb_refl.
  - destruct (String.eqb k k') eqn:E; simpl; rewrite E; auto.
Qed.

Lemma get_set_other k k' v o : k <> k' -> Obj.get k' (Obj.set k v o) = Obj.get k' o.
Proof.
  intros Hne. induction o as [|[k0 v0] r IH]; simpl.
  - destruct (String.eqb k' k) eqn:E; auto.
    apply String.eqb_eq in E. congruence.
  - destruct (String.eqb k k0) eqn:E; simpl.
    + apply String.eqb_eq in E. subst k0.
      destruct (String.eqb k' k) eqn:E'; auto.
      apply String.eqb_eq in E'. congruence.
    + now rewrite IH.
Qed.

Lemma get_none_iff k o : Obj.get k o = None <-> ~ In k (Obj.keys o).
Proof.
  induction o as [|[k' v'] r IH]; simpl.
  - tauto.
  - destruct (String.eqb k k') eqn:E.
    + apply String.eqb_eq in E. subst. split; [discriminate | tauto].
    + apply String.eqb_neq in E. rewrite IH. split; intros H; [intros [?|?]|]; intuition congruence.
Qed.

Lemma keys_set k v o k' : In k' (Obj.keys (Obj.set k v o)) <-> k' = k \/ In k' (Obj.keys o).
Proof.
  induction o as [|[k0 v0] r IH]; simpl.
  - intuition.
  - destruct (String.eqb k k0) eqn:E; simpl.
    + apply String.eqb_eq in E. subst. intuition.
    + rewrite IH. intuition.
Qed.

Lemma nodup_set k v o : NoDup (Obj.keys o) -> NoDup (Obj.keys (Obj.set k v o)).
Proof.
  induction o as [|[k0 v0] r IH]; simpl; intros H.
  - constructor; [simpl; tauto | constructor].
  - inversion H as [|? ? Hnin Hnd]; subst.
    destruct (String.eqb k k0) eqn:E; simpl.
    + now constructor.
    + constructor; auto.
      fold (Obj.keys (Obj.set k v r)). rewrite keys_set.
      apply String.eqb_neq in E. intros [->|?]; tauto.
Qed.

Lemma in_get k v o : NoDup (Obj.keys o) -> (In (k, v) o <-> Obj.get k o = Some v).
Proof.
  induction o as [|[k0 v0] r IH]; simpl; intros H.
  - split; [tauto | discriminate].
  - inversion H as [|? ? Hnin Hnd]; subst.
    destruct (String.eqb k k0) eqn:E.
    + apply String.eqb_eq in E. subst k0. split.
      * intros [Heq|Hin]; [congruence|].
        exfalso. apply Hnin. change k with (fst (k, v)). now apply in_map.
      * intros Heq. left. congruence.
    + apply String.eqb_neq in E. rewrite <- IH by assumption.
      split; [intros [Heq|Hin]; [congruence | assumption] | tauto].
Qed.

Lemma nodup_keys_nodup (o : Obj.t) : NoDup (Obj.keys o) -> NoDup o.
Proof. apply NoDup_map_inv. Qed.

(** Two dictionaries with the same bindings list the same entries, up to order. *)
Lemma same_bindings_permutation (o1 o2 : Obj.t) :
  NoDup (Obj.keys o1) -> NoDup (Obj.keys o2) ->
  (forall k, Obj.get k o1 = Obj.get k o2) -> Permutation o1 o2.
Proof.
  intros H1 H2 Hget.
  apply NoDup_Permutation; auto using nodup_keys_nodup.
  intros [k v]. rewrite !in_get by assumption. now rewrite Hget.
Qed.

End ObjFacts.

(** ** Aggregation of one tree *)

Section TreeAggregation.

Variable languageMap : Catalog.

Lemma aggregate_item_counted L totals item :
  JS.truthy L = true -> counts_for languageMap L item = true ->
  Obj.get L (aggregate_item languageMap totals item)
  = Some (Obj.get_or0 L totals + size_or0 item).
Proof.
  unfold counts_for, aggregate_item, size_or0. intros HL H.
  apply andb_prop in H as [H H3]. apply andb_prop in H as [H1 H2].
  rewrite H1. simpl.
  destruct (size item) as [sz|]; [|discriminate].
  destruct (extToLanguage languageMap (path item)) as [l|]; [|discriminate].
  apply String.eqb_eq in H3. subst l. rewrite HL. simpl.
  apply get_set_same.
Qed.

Lemma aggregate_item_other L totals item :
  (JS.truthy L && counts_for languageMap L item)%bool = false ->
  Obj.get L (aggregate_item languageMap totals item) = Obj.get L totals.
Proof.
  unfold counts_for, aggregate_item. intros H.
  destruct (String.eqb (type item) "blob"); simpl in *; auto.
  destruct (size item) as [sz|]; simpl in *; auto.
  destruct (extToLanguage languageMap (path item)) as [l|]; auto.
  destruct (JS.truthy l) eqn:Hl; simpl; auto.
  apply get_set_other. intros ->.
  rewrite Hl, String.eqb_refl in H. discriminate.
Qed.

Lemma aggregate_item_nodup totals item :
  NoDup (Obj.keys totals) -> NoDup (Obj.keys (aggregate_item languageMap totals item)).
Proof.
  intros H. unfold aggregate_item.
  destruct (negb _); auto. destruct (size item); auto.
  destruct (extToLanguage _ _); auto. destruct (negb _); auto using nodup_set.
Qed.

Lemma fold_aggregate_nodup tree totals :
  NoDup (Obj.keys totals) ->
  NoDup (Obj.keys (fold_left (aggregate_item languageMap) tree totals)).
Proof.
  revert totals. induction tree as [|item r IH]; simpl; auto using aggregate_item_nodup.
Qed.

(** The loop invariant of [aggregateByLanguageFromTree], for any start. *)
Lemma fold_aggregate_get L tree totals :
  Obj.get L (fold_left (aggregate_item languageMap) tree totals)
  = if (JS.truthy L && existsb (counts_for languageMap L) tree)%bool
    then Some (Obj.get_or0 L totals + sum_sizes (filter (counts_for languageMap L) tree))
    else Obj.get L totals.
Proof.
  revert totals. induction tree as [|item r IH]; intros totals; simpl.
  - now rewrite andb_false_r.
  - rewrite IH. destruct (JS.truthy L) eqn:HL; simpl; [|now rewrite aggregate_item_other by (now rewrite HL)].
    destruct (counts_for languageMap L item) eqn:Hc; simpl.
    + unfold Obj.get_or0 at 1. rewrite aggregate_item_counted by assumption.
      destruct (existsb _ r) eqn:Hex.
      * f_equal. lia.
      * f_equal. clear IH. assert (Hf : filter (counts_for languageMap L) r = []).
        { induction r as [|x r IHr]; simpl in *; auto.
          apply orb_false_elim in Hex as [Hx Hr]. rewrite Hx. auto. }
        rewrite Hf. simpl. lia.
    + unfold Obj.get_or0. rewrite aggregate_item_other by (now rewrite HL, Hc).
      reflexivity.
Qed.

Lemma aggregate_get L tree :
  Obj.get L (aggregateByLanguageFromTree languageMap tree)
  = if (JS.truthy L && existsb (counts_for languageMap L) tree)%bool
    then Some (sum_sizes (filter (counts_for languageMap L) tree))
    else None.
Proof.
  unfold aggregateByLanguageFromTree. rewrite fold_aggregate_get.
  destruct (_ && _)%bool; auto.
Qed.

Lemma aggregate_nodup tree :
  NoDup (Obj.keys (aggregateByLanguageFromTree languageMap tree)).
Proof. apply fold_aggregate_nodup. constructor. Qed.

Lemma existsb_permutation {A} (f : A -> bool) l l' :
  Permutation l l' -> existsb f l = existsb f l'.
Proof.
  induction 1; simpl; try congruence.
  - now rewrite !orb_assoc, (orb_comm (f y)).
Qed.

Lemma sum_sizes_permutation l l' : Permutation l l' -> sum_sizes l = sum_sizes l'.
Proof. induction 1; simpl; lia. Qed.

Lemma filter_permutation {A} (f : A -> bool) l l' :
  Permutation l l' -> Permutation (filter f l) (filter f l').
Proof.
  induction 1; simpl.
  - constructor.
  - destruct (f x); auto.
  - destruct (f x), (f y); auto using perm_swap.
  - eauto using Permutation_trans.
Qed.

End TreeAggregation.

(** ** Aggregation across repositories *)

Section AcrossRepos.

Variable languageMap : Catalog.
Variable gh : Upstream.
Variable token : string.
Variable branch : string.

Lemma fetchRepoTree_log owner repo log :
  fetchRepoTreeByBranch gh token owner repo branch log
  = (fst (run (fetchRepoTreeByBranch gh token owner repo branch)),
     (log ++ snd (run (fetchRepoTreeByBranch gh token owner repo branch)))%list).
Proof.
  unfold run, fetchRepoTreeByBranch, bind, fetch, ret, throw. simpl.
  destruct (negb (ok (get_branch gh owner repo branch))).
  - destruct (_ =? 404); reflexivity.
  - destruct (json (get_branch gh owner repo branch)) as [sha|]; [|reflexivity].
    destruct (negb (JS.truthy sha)); [reflexivity|].
    rewrite <- app_assoc. simpl.
    destruct (negb (ok (get_tree gh owner repo sha))); [|reflexivity].
    destruct (_ =? 409); reflexivity.
Qed.

Lemma merge_totals_nil grand : merge_totals grand [] = grand.
Proof. reflexivity. Qed.

Lemma merge_totals_nodup byLang grand :
  NoDup (Obj.keys grand) -> NoDup (Obj.keys (merge_totals grand byLang)).
Proof.
  unfold merge_totals. revert grand.
  induction byLang as [|[k v] r IH]; simpl; auto using nodup_set.
Qed.

Lemma merge_totals_get k byLang grand :
  NoDup (Obj.keys byLang) ->
  Obj.get k (merge_totals grand byLang)
  = match Obj.get k byLang with
    | Some v => Some (Obj.get_or0 k grand + v)
    | None => Obj.get k grand
    end.
Proof.
  unfold merge_totals. revert grand.
  induction byLang as [|[k0 v0] r IH]; intros grand Hnd; simpl; auto.
  inversion Hnd as [|? ? Hnin Hnd']; subst.
  rewrite IH by assumption.
  destruct (String.eqb k k0) eqn:E.
  - apply String.eqb_eq in E. subst k0.
    apply get_none_iff in Hnin. rewrite Hnin. apply get_set_same.
  - apply String.eqb_neq in E.
    unfold Obj.get_or0. rewrite get_set_other by congruence. reflexivity.
Qed.

Lemma repo_totals_nodup full : NoDup (Obj.keys (repo_totals languageMap gh token branch full)).
Proof.
  unfold repo_totals. destruct (resolved gh token branch full) as [[tree|e]|];
    auto using aggregate_nodup; constructor.
Qed.

(** When every tree is resolved, the loop is the fold of the per-repository
    totals into the running total. *)
Lemma aggregate_loop_returns names : forall grand log,
  forallb (resolves gh token branch) names = true ->
  fst (aggregate_loop languageMap gh token names branch grand log)
  = Return (fold_left merge_totals (map (repo_totals languageMap gh token branch) names) grand).
Proof.
  induction names as [|full rest IH]; intros grand log H; simpl in *; auto.
  apply andb_prop in H as [Hfull Hrest].
  unfold resolves, repo_totals, resolved in *.
  destruct (owner_repo full) as [owner repo].
  destruct (negb (JS.truthy_opt owner) || negb (JS.truthy_opt repo)).
  - rewrite merge_totals_nil. now apply IH.
  - unfold bind. rewrite fetchRepoTree_log.
    destruct (fst (run _)) as [tree|e]; [|discriminate].
    destruct tree as [|item tree'].
    + change (aggregateByLanguageFromTree languageMap []) with (@nil (string * Z)).
      rewrite merge_totals_nil. now apply IH.
    + now apply IH.
Qed.

(** One failing resolution makes the loop throw, whatever was summed before. *)
Lemma aggregate_loop_throws names : forall grand log,
  forallb (resolves gh token branch) names = false ->
  exists e, fst (aggregate_loop languageMap gh token names branch grand log) = Throw e.
Proof.
  induction names as [|full rest IH]; intros grand log H; simpl in *; [discriminate|].
  unfold resolves at 1, resolved in H.
  destruct (owner_repo full) as [owner repo].
  destruct (negb (JS.truthy_opt owner) || negb (JS.truthy_opt repo)).
  - now apply IH.
  - unfold bind. rewrite fetchRepoTree_log.
    destruct (fst (run _)) as [tree|e]; simpl in *.
    + destruct tree; now apply IH.
    + now exists e.
Qed.

Lemma fold_merge_nodup tots : forall grand,
  NoDup (Obj.keys grand) -> NoDup (Obj.keys (fold_left merge_totals tots grand)).
Proof.
  induction tots as [|o r IH]; intros grand H; simpl; auto using merge_totals_nodup.
Qed.

Lemma sum_absent k tots :
  existsb (Obj.has k) tots = false ->
  fold_right (fun o acc => Obj.get_or0 k o + acc) 0 tots = 0.
Proof.
  induction tots as [|o r IH]; simpl; auto.
  intros H. apply orb_false_elim in H as [Ho Hr]. rewrite IH by assumption.
  unfold Obj.has, Obj.get_or0 in *. destruct (Obj.get k o); [discriminate | lia].
Qed.

Lemma fold_merge_get k tots : forall grand,
  Forall (fun o => NoDup (Obj.keys o)) tots ->
  Obj.get k (fold_left merge_totals tots grand)
  = match pointwise_sum k tots with
    | Some s => Some (Obj.get_or0 k grand + s)
    | None => Obj.get k grand
    end.
Proof.
  unfold pointwise_sum.
  induction tots as [|o r IH]; intros grand H; simpl; auto.
  inversion H as [|? ? Ho Hr]; subst.
  rewrite IH by assumption.
  rewrite merge_totals_get by assumption.
  destruct (existsb (Obj.has k) r) eqn:Hex.
  - unfold Obj.has, Obj.get_or0. rewrite merge_totals_get by assumption.
    unfold Obj.get_or0.
    destruct (Obj.get k o) as [v|], (Obj.get k grand) as [g|]; simpl; f_equal; lia.
  - rewrite (sum_absent k r Hex).
    unfold Obj.has, Obj.get_or0.
    destruct (Obj.get k o) as [v|], (Obj.get k grand) as [g|]; simpl; f_equal; lia.
Qed.

Lemma pointwise_sum_permutation k tots tots' :
  Permutation tots tots' -> pointwise_sum k tots = pointwise_sum k tots'.
Proof.
  intros H. unfold pointwise_sum. rewrite (existsb_permutation _ _ _ H).
  destruct (existsb _ tots'); auto. f_equal.
  clear -H. induction H; simpl; lia.
Qed.

Lemma forallb_permutation {A} (f : A -> bool) l l' :
  Permutation l l' -> forallb f l = forallb f l'.
Proof.
  induction 1; simpl; try congruence.
  now rewrite !andb_assoc, (andb_comm (f y)).
Qed.

(** The result of [aggregateRepos] when every tree is resolved. *)
Lemma aggregateRepos_returns names :
  forallb (resolves gh token branch) names = true ->
  exists grand,
    fst (run (aggregateRepos languageMap gh token names branch)) = Return grand
    /\ NoDup (Obj.keys grand)
    /\ forall k, Obj.get k grand = pointwise_sum k (map (repo_totals languageMap gh token branch) names).
Proof.
  intros H. eexists. split; [apply aggregate_loop_returns, H|]. split.
  - apply fold_merge_nodup. constructor.
  - intros k. rewrite fold_merge_get.
    + destruct (pointwise_sum _ _); simpl; auto.
    + apply Forall_forall. intros o Hin. apply in_map_iff in Hin as [full [<- _]].
      apply repo_totals_nodup.
Qed.

End AcrossRepos.

(** ** Ranking *)

Section RankingFacts.

Lemma delete_filter k (t : Obj.t) :
  Obj.delete k t = filter (fun kv => negb (String.eqb k (fst kv))) t.
Proof.
  induction t as [|[k' v'] r IH]; simpl; auto.
  destruct (String.eqb k k'); simpl; now rewrite IH.
Qed.

Lemma filter_twice {A} (f g : A -> bool) l :
  filter f (filter g l) = filter (fun x => g x && f x) l.
Proof.
  induction l as [|x r IH]; simpl; auto.
  destruct (g x); simpl; [destruct (f x)|]; now rewrite IH.
Qed.

(** Deleting the hidden keys one at a time, for the keys [ks] seen so far. *)
Lemma hide_fold hideList ks : forall t : Obj.t,
  fold_left (fun t k => if set_has hideList (JS.toLowerCase k) then Obj.delete k t else t) ks t
  = filter (fun kv => visible hideList kv || negb (existsb (String.eqb (fst kv)) ks)) t.
Proof.
  induction ks as [|k r IH]; intros t; simpl.
  - rewrite <- (filter_true t) at 1. apply filter_ext. intros kv. now rewrite orb_true_r.
  - rewrite IH. destruct (set_has hideList (JS.toLowerCase k)) eqn:Hk.
    + rewrite delete_filter, filter_twice. apply filter_ext. intros [k' v']. simpl.
      unfold visible. simpl. rewrite (String.eqb_sym k k').
      destruct (String.eqb k' k) eqn:E; simpl; auto.
      apply String.eqb_eq in E. subst k'. now rewrite Hk.
    + apply filter_ext. intros [k' v']. unfold visible. simpl.
      destruct (String.eqb k' k) eqn:E; simpl; auto.
      apply String.eqb_eq in E. subst k'. now rewrite Hk.
Qed.

(** The hide loop keeps exactly the visible languages, in their order. *)
Lemma hide_languages_filter hideList totals :
  hide_languages hideList totals = filter (visible hideList) totals.
Proof.
  unfold hide_languages. rewrite hide_fold. apply filter_ext_in.
  intros [k v] Hin. simpl.
  assert (H : existsb (String.eqb k) (Obj.keys totals) = true).
  { apply existsb_exists. exists k. split; [|apply String.eqb_refl].
    change k with (fst (k, v)). now apply in_map. }
  rewrite H. now rewrite orb_false_r.
Qed.

Lemma insert_desc_permutation a l : Permutation (insert_desc a l) (a :: l).
Proof.
  induction l as [|b r IH]; simpl; auto.
  destruct (0 <? snd b - snd a); auto.
  eapply Permutation_trans; [apply perm_skip, IH | apply perm_swap].
Qed.

Lemma sort_desc_permutation l : Permutation (sort_desc l) l.
Proof.
  induction l as [|a r IH]; simpl; auto.
  eapply Permutation_trans; [apply insert_desc_permutation | now apply perm_skip].
Qed.

Lemma insert_desc_descending a l : descending l -> descending (insert_desc a l).
Proof.
  induction 1 as [|b r Hall Hr IH]; simpl.
  - repeat constructor.
  - destruct (0 <? snd b - snd a) eqn:E.
    + apply Z.ltb_lt in E. constructor; auto.
      eapply Permutation_Forall; [symmetry; apply insert_desc_permutation|].
      constructor; [lia | assumption].
    + apply Z.ltb_ge in E. constructor; [|now constructor].
      constructor; [lia|].
      eapply Forall_impl; [|exact Hall]. simpl. intros; lia.
Qed.

Lemma sort_desc_descending l : descending (sort_desc l).
Proof.
  induction l; simpl; [constructor | now apply insert_desc_descending].
Qed.

Lemma firstn_descending n : forall l, descending l -> descending (firstn n l).
Proof.
  induction n as [|n IH]; intros l H; simpl; [constructor|].
  destruct H as [|a r Hall Hr]; constructor; auto.
  apply Forall_forall. intros b Hb. apply (proj1 (Forall_forall _ _) Hall).
  revert Hb. clear. revert r. induction n; intros [|x r]; simpl; try tauto.
  intros [?|?]; eauto.
Qed.

Lemma in_firstn {A} n : forall (l : list A) x, In x (firstn n l) -> In x l.
Proof.
  induction n; intros [|y r] x; simpl; try tauto. intros [?|?]; eauto.
Qed.

Lemma in_slice0 {A} (l : list A) e x : In x (JS.slice0 l e) -> In x l.
Proof. unfold JS.slice0. destruct (e <? 0); apply in_firstn. Qed.

Lemma length_slice0 {A} (l : list A) e :
  0 <= e -> length (JS.slice0 l e) = Nat.min (Z.to_nat e) (length l).
Proof.
  intros H. unfold JS.slice0. destruct (e <? 0) eqn:E; [apply Z.ltb_lt in E; lia|].
  apply length_firstn.
Qed.

Lemma in_top_entries totals hideList topN kv :
  In kv (top_entries totals hideList topN) ->
  In kv totals /\ visible hideList kv = true.
Proof.
  unfold top_entries. intros H. apply in_slice0 in H.
  apply (Permutation_in _ (sort_desc_permutation _)) in H.
  rewrite hide_languages_filter in H. now apply filter_In in H.
Qed.

Lemma total_bytes_sum top :
  total_bytes top = fold_right (fun kv acc => snd kv + acc) 0 top.
Proof.
  unfold total_bytes.
  assert (H : forall a, fold_left (fun acc kv => acc + snd kv) top a
                        = a + fold_right (fun kv acc => snd kv + acc) 0 top).
  { induction top as [|kv r IH]; intros a; simpl; [lia|]. rewrite IH. lia. }
  rewrite H. lia.
Qed.

Lemma ranked_total_map (p : string * Z -> Q) top :
  ranked_total (map (fun kv => Ranked.mk (fst kv) (snd kv) (p kv)) top)
  = fold_right (fun kv acc => snd kv + acc) 0 top.
Proof. induction top as [|kv r IH]; simpl; auto. now rewrite IH. Qed.

Lemma ranked_total_rank totals hideList topN :
  ranked_total (rank totals hideList topN)
  = total_bytes (top_entries totals hideList topN).
Proof.
  unfold rank. cbv zeta. rewrite total_bytes_sum at 1.
  apply ranked_total_map.
Qed.

End RankingFacts.

(** * The claims *)

(** C1. For every list of tree entries, [aggregateByLanguageFromTree] returns
    a dictionary with unique keys that binds each language [L] to the sum of
    the sizes of exactly the entries that are blobs, have a numeric size and
    whose path is classified as [L]; a language for which no entry counts has
    no key ([JS.truthy L] only says that [L] is a name, not the empty
    string, which the loop treats as no language). *)
Theorem aggregateTree_sums_counted_entries :
  forall (languageMap : Catalog) (tree : list TreeEntry) (L : string),
    NoDup (Obj.keys (aggregateByLanguageFromTree languageMap tree))
    /\ Obj.get L (aggregateByLanguageFromTree languageMap tree)
       = if (JS.truthy L && existsb (counts_for languageMap L) tree)%bool
         then Some (sum_sizes (filter (counts_for languageMap L) tree))
         else None.
Proof.
  intros languageMap tree L. split.
  - apply aggregate_nodup.
  - apply aggregate_get.
Qed.

(** C9. [aggregateByLanguageFromTree] does not depend on the order of the
    entries: on a permutation of the tree every language has the same total,
    and the two dictionaries hold the same entries. *)
Theorem aggregateTree_permutation_invariant :
  forall (languageMap : Catalog) (tree tree' : list TreeEntry),
    Permutation tree tree' ->
    (forall L, Obj.get L (aggregateByLanguageFromTree languageMap tree)
               = Obj.get L (aggregateByLanguageFromTree languageMap tree'))
    /\ Permutation (aggregateByLanguageFromTree languageMap tree)
                   (aggregateByLanguageFromTree languageMap tree').
Proof.
  intros languageMap tree tree' Hperm.
  assert (Hget : forall L, Obj.get L (aggregateByLanguageFromTree languageMap tree)
                           = Obj.get L (aggregateByLanguageFromTree languageMap tree')).
  { intros L. rewrite !aggregate_get.
    rewrite (existsb_permutation _ _ _ Hperm).
    rewrite (sum_sizes_permutation _ _ (filter_permutation (counts_for languageMap L) _ _ Hperm)).
    reflexivity. }
  split; [exact Hget|].
  apply same_bindings_permutation; auto using aggregate_nodup.
Qed.

Lemma aggregateTree_permutation_invariant_witness :
  Permutation Demo.tree_B (rev Demo.tree_B)
  /\ (forall L, Obj.get L (aggregateByLanguageFromTree Demo.catalog Demo.tree_B)
                = Obj.get L (aggregateByLanguageFromTree Demo.catalog (rev Demo.tree_B)))
  /\ Permutation (aggregateByLanguageFromTree Demo.catalog Demo.tree_B)
                 (aggregateByLanguageFromTree Demo.catalog (rev Demo.tree_B)).
Proof.
  split; [apply Permutation_rev|].
  apply (aggregateTree_permutation_invariant Demo.catalog Demo.tree_B (rev Demo.tree_B)).
  apply Permutation_rev.
Defined.

(** C2. When the tree of every listed repository is resolved,
    [aggregateRepos] returns the per-language sum of the per-repository
    totals, with a key exactly for the languages some repository has, and a
    reordering of the repositories gives the same totals; when some tree is
    not resolved, it throws in every order. On the two
    repositories with totals {Go: 100} and {Go: 50, Rust: 30} the result is
    {Go: 150, Rust: 30} in both orders. *)
Theorem aggregateRepos_pointwise_sum :
  (forall (languageMap : Catalog) (gh : Upstream) (token branch : string)
          (names names' : list string),
      forallb (resolves gh token branch) names = true ->
      Permutation names names' ->
      exists grand grand',
        fst (run (aggregateRepos languageMap gh token names branch)) = Return grand
        /\ fst (run (aggregateRepos languageMap gh token names' branch)) = Return grand'
        /\ NoDup (Obj.keys grand)
        /\ (forall k, Obj.get k grand
                      = pointwise_sum k (map (repo_totals languageMap gh token branch) names))
        /\ (forall k, Obj.get k grand' = Obj.get k grand)
        /\ Permutation grand grand')
  /\ (forall (languageMap : Catalog) (gh : Upstream) (token branch : string)
             (names names' : list string),
         forallb (resolves gh token branch) names = false ->
         Permutation names names' ->
         (exists e, fst (run (aggregateRepos languageMap gh token names branch)) = Throw e)
         /\ (exists e', fst (run (aggregateRepos languageMap gh token names' branch)) = Throw e'))
  /\ map (repo_totals Demo.catalog Demo.gh "t" "develop") ["u/A"; "u/B"]
     = [[("Go", 100)]; [("Go", 50); ("Rust", 30)]]
  /\ fst (run (aggregateRepos Demo.catalog Demo.gh "t" ["u/A"; "u/B"] "develop"))
     = Return [("Go", 150); ("Rust", 30)]
  /\ fst (run (aggregateRepos Demo.catalog Demo.gh "t" ["u/B"; "u/A"] "develop"))
     = Return [("Go", 150); ("Rust", 30)].
Proof.
  split; [|split; [|repeat split; reflexivity]].
  2: { intros languageMap gh token branch names names' Hres Hperm.
       assert (Hres' : forallb (resolves gh token branch) names' = false)
         by now rewrite <- (forallb_permutation _ _ _ Hperm).
       split; apply aggregate_loop_throws; assumption. }
  intros languageMap gh token branch names names' Hres Hperm.
  assert (Hres' : forallb (resolves gh token branch) names' = true)
    by now rewrite <- (forallb_permutation _ _ _ Hperm).
  destruct (aggregateRepos_returns languageMap gh token branch names Hres)
    as (grand & Hrun & Hnd & Hget).
  destruct (aggregateRepos_returns languageMap gh token branch names' Hres')
    as (grand' & Hrun' & Hnd' & Hget').
  exists grand, grand'. repeat split; auto.
  - intros k. rewrite Hget, Hget'. symmetry.
    apply pointwise_sum_permutation. now apply Permutation_map.
  - apply same_bindings_permutation; auto.
    intros k. rewrite Hget, Hget'.
    apply pointwise_sum_permutation. now apply Permutation_map.
Qed.

Lemma aggregateRepos_pointwise_sum_witness :
  forallb (resolves Demo.gh "t" "develop") ["u/A"; "u/missing"; "u/B"] = true
  /\ Permutation ["u/A"; "u/missing"; "u/B"] ["u/B"; "u/missing"; "u/A"]
  /\ (exists grand grand',
       fst (run (aggregateRepos Demo.catalog Demo.gh "t" ["u/A"; "u/missing"; "u/B"] "develop"))
       = Return grand
       /\ fst (run (aggregateRepos Demo.catalog Demo.gh "t" ["u/B"; "u/missing"; "u/A"] "develop"))
          = Return grand'
       /\ NoDup (Obj.keys grand)
       /\ (forall k, Obj.get k grand
                     = pointwise_sum k (map (repo_totals Demo.catalog Demo.gh "t" "develop")
                                            ["u/A"; "u/missing"; "u/B"]))
       /\ (forall k, Obj.get k grand' = Obj.get k grand)
       /\ Permutation grand grand')
  /\ forallb (resolves Demo.gh "t" "develop") ["u/A"; "u/broken"] = false
  /\ Permutation ["u/A"; "u/broken"] ["u/broken"; "u/A"]
  /\ (exists e, fst (run (aggregateRepos Demo.catalog Demo.gh "t" ["u/A"; "u/broken"] "develop"))
                = Throw e)
  /\ (exists e', fst (run (aggregateRepos Demo.catalog Demo.gh "t" ["u/broken"; "u/A"] "develop"))
                 = Throw e').
Proof.
  split; [reflexivity|].
  split; [apply (Permutation_rev ["u/A"; "u/missing"; "u/B"])|].
  split.
  - apply (proj1 aggregateRepos_pointwise_sum Demo.catalog Demo.gh "t" "develop").
    + reflexivity.
    + apply (Permutation_rev ["u/A"; "u/missing"; "u/B"]).
  - split; [reflexivity|].
    split; [apply (Permutation_rev ["u/A"; "u/broken"])|].
    apply (proj1 (proj2 aggregateRepos_pointwise_sum) Demo.catalog Demo.gh "t" "develop").
    + reflexivity.
    + apply (Permutation_rev ["u/A"; "u/broken"]).
Defined.

(** ** Ranking: hide list, order, truncation, shares *)

Lemma set_has_lowered hideSet name :
  set_has (map JS.toLowerCase hideSet) (JS.toLowerCase name) = hidden_ci hideSet name.
Proof.
  unfold set_has, hidden_ci. induction hideSet as [|h r IH]; simpl; auto.
  now rewrite IH, String.eqb_sym.
Qed.

Lemma rank_length totals hideList topN :
  0 <= topN ->
  length (rank totals hideList topN)
  = Nat.min (Z.to_nat topN) (length (filter (visible hideList) totals)).
Proof.
  intros H. unfold rank, top_entries. rewrite length_map, length_slice0 by assumption.
  rewrite (Permutation_length (sort_desc_permutation _)), hide_languages_filter.
  reflexivity.
Qed.

Lemma rank_entries totals hideList topN :
  map (fun i => (Ranked.name i, Ranked.size i)) (rank totals hideList topN)
  = top_entries totals hideList topN.
Proof.
  unfold rank. rewrite map_map. simpl.
  rewrite <- (map_id (top_entries totals hideList topN)) at 2.
  apply map_ext. now intros [k v].
Qed.

Lemma in_rank totals hideList topN it :
  In it (rank totals hideList topN) ->
  In (Ranked.name it, Ranked.size it) (top_entries totals hideList topN)
  /\ Ranked.percent it
     = if total_bytes (top_entries totals hideList topN) =? 0 then 0%Q
       else (inject_Z (Ranked.size it)
             / inject_Z (total_bytes (top_entries totals hideList topN)) * 100)%Q.
Proof.
  unfold rank. intros H. apply in_map_iff in H as [[k v] [<- Hin]]. simpl. auto.
Qed.

(** C3. With the hide set lowered as the handler does, [rank] returns only
    languages whose name is not in the hide set (case ignored), each with its
    size in the totals; the hidden ones are gone before the order and the cut
    are decided, so the result has min(topN, number of visible languages)
    items, in descending order of size; and the percentage of an item is
    100 * size over the sum of the sizes of the returned items (0 when that
    sum is 0), not over the grand total. With hide set {Go} and topN 1 on
    {Go: 150, Rust: 30, Python: 10} the result is the single item Rust, 30,
    100 percent. *)
Theorem rank_hides_then_shares :
  (forall (totals : Obj.t) (hideSet : list string) (topN : Z),
      let items := rank totals (map JS.toLowerCase hideSet) topN in
      (forall it, In it items ->
                  hidden_ci hideSet (Ranked.name it) = false
                  /\ In (Ranked.name it, Ranked.size it) totals)
      /\ (0 <= topN ->
          length items
          = Nat.min (Z.to_nat topN)
                    (length (filter (fun kv => negb (hidden_ci hideSet (fst kv))) totals)))
      /\ descending (map (fun i => (Ranked.name i, Ranked.size i)) items)
      /\ (forall it, In it items ->
                     if ranked_total items =? 0 then Ranked.percent it = 0%Q
                     else (Ranked.percent it
                           == 100 * inject_Z (Ranked.size it) / inject_Z (ranked_total items))%Q))
  /\ exists p,
       rank [("Go", 150); ("Rust", 30); ("Python", 10)] (lower_set "Go")
            (clamped_param "1" 6 1 20)
       = [Ranked.mk "Rust" 30 p]
       /\ (p == 100)%Q.
Proof.
  split.
  - intros totals hideSet topN items. subst items. repeat split.
    + apply in_rank in H as [H _]. apply in_top_entries in H as [_ H].
      unfold visible in H. simpl in H. rewrite set_has_lowered in H.
      now apply negb_true_iff in H.
    + apply in_rank in H as [H _]. now apply in_top_entries in H as [H _].
    + intros H. rewrite rank_length by assumption. f_equal. f_equal.
      apply filter_ext. intros [k v]. unfold visible. simpl.
      now rewrite set_has_lowered.
    + rewrite rank_entries. unfold top_entries, JS.slice0.
      destruct (topN <? 0); apply firstn_descending, sort_desc_descending.
    + intros it H. rewrite ranked_total_rank.
      apply in_rank in H as [_ H]. rewrite H.
      destruct (_ =? 0) eqn:E; [reflexivity|].
      apply Z.eqb_neq in E. field.
      intros H0. apply E.
      unfold Qeq in H0. simpl in H0. lia.
  - eexists. split; [reflexivity | reflexivity].
Qed.

Lemma rank_hides_then_shares_witness :
  let totals := [("Go", 150); ("Rust", 30); ("Python", 10)] in
  let items := rank totals (map JS.toLowerCase ["GO"]) 2 in
  let it := Ranked.mk "Rust" 30 (inject_Z 30 / inject_Z 40 * 100)%Q in
  In it items
  /\ 0 <= 2
  /\ hidden_ci ["GO"] (Ranked.name it) = false
  /\ In (Ranked.name it, Ranked.size it) totals
  /\ length items = 2%nat
  /\ (Ranked.percent it == 100 * inject_Z 30 / inject_Z 40)%Q.
Proof.
  intros totals items it.
  pose proof (proj1 rank_hides_then_shares totals ["GO"] 2) as (Hin & Hlen & _ & Hpct).
  assert (Hit : In it items) by (left; reflexivity).
  split; [exact Hit|]. split; [lia|].
  destruct (Hin it Hit) as [Hvis Htot].
  split; [exact Hvis|]. split; [exact Htot|].
  split; [apply Hlen; lia|].
  exact (Hpct it Hit).
Defined.

(** ** Sizes of ranked items *)

Section NonNegative.

Variable languageMap : Catalog.
Variable gh : Upstream.
Variable token : string.
Variable branch : string.

Lemma sum_sizes_nonneg (f : TreeEntry -> bool) tree :
  tree_sizes_nonneg tree = true -> 0 <= sum_sizes (filter f tree).
Proof.
  induction tree as [|item r IH]; simpl; [lia|].
  intros H. apply andb_prop in H as [Hi Hr]. specialize (IH Hr).
  destruct (f item); simpl; auto.
  unfold size_or0. destruct (size item); [apply Z.leb_le in Hi|]; lia.
Qed.

Lemma repo_totals_nonneg k full :
  match resolved gh token branch full with
  | Some (Return tree) => tree_sizes_nonneg tree
  | _ => true
  end = true ->
  0 <= Obj.get_or0 k (repo_totals languageMap gh token branch full).
Proof.
  unfold repo_totals, Obj.get_or0.
  destruct (resolved gh token branch full) as [[tree|e]|]; simpl; try lia.
  intros H. rewrite aggregate_get.
  destruct (_ && _)%bool; [now apply sum_sizes_nonneg | lia].
Qed.

Lemma pointwise_sum_nonneg k names s :
  served_sizes_nonneg gh token branch names = true ->
  pointwise_sum k (map (repo_totals languageMap gh token branch) names) = Some s ->
  0 <= s.
Proof.
  unfold pointwise_sum, served_sizes_nonneg. intros H.
  destruct (existsb _ _); [|discriminate]. intros [= <-].
  induction names as [|full r IH]; simpl in *; [lia|].
  apply andb_prop in H as [Hf Hr].
  pose proof (repo_totals_nonneg k full Hf). specialize (IH Hr). lia.
Qed.

(** A returned grand total is the fold of the per-repository totals. *)
Lemma aggregateRepos_return_inv names totals :
  fst (run (aggregateRepos languageMap gh token names branch)) = Return totals ->
  NoDup (Obj.keys totals)
  /\ forall k, Obj.get k totals
               = pointwise_sum k (map (repo_totals languageMap gh token branch) names).
Proof.
  intros Hrun.
  destruct (forallb (resolves gh token branch) names) eqn:Hres.
  - destruct (aggregateRepos_returns languageMap gh token branch names Hres)
      as (grand & Hrun' & Hnd & Hget).
    rewrite Hrun in Hrun'. injection Hrun' as <-. auto.
  - destruct (aggregate_loop_throws languageMap gh token branch names [] [] Hres) as [e He].
    unfold run, aggregateRepos in Hrun. rewrite Hrun in He. discriminate.
Qed.

End NonNegative.

Section PositiveUnlessEmpty.

Variable languageMap : Catalog.
Variable gh : Upstream.
Variable token : string.
Variable branch : string.

Lemma sum_sizes_positive (f : TreeEntry -> bool) tree :
  tree_sizes_nonneg tree = true ->
  0 <= sum_sizes (filter f tree)
  /\ (0 < sum_sizes (filter f tree)
      <-> existsb (fun item => f item && (0 <? size_or0 item)) tree = true).
Proof.
  induction tree as [|item r IH]; simpl.
  - intros _. split; [lia|]. split; [lia | discriminate].
  - intros H. apply andb_prop in H as [Hi Hr]. destruct (IH Hr) as [Hge Hiff].
    assert (Hs : 0 <= size_or0 item).
    { unfold size_or0. destruct (size item); [now apply Z.leb_le | lia]. }
    destruct (f item); simpl.
    + split; [lia|]. rewrite orb_true_iff, Z.ltb_lt, <- Hiff. lia.
    + split; [exact Hge|]. exact Hiff.
Qed.

Lemma repo_totals_served full :
  repo_totals languageMap gh token branch full
  = aggregateByLanguageFromTree languageMap (served_tree gh token branch full).
Proof.
  unfold repo_totals, served_tree.
  destruct (resolved gh token branch full) as [[tree|e]|]; reflexivity.
Qed.

Lemma counted_sum_of_repo k full :
  JS.truthy k = true ->
  Obj.get_or0 k (repo_totals languageMap gh token branch full)
  = sum_sizes (filter (counts_for languageMap k) (served_tree gh token branch full)).
Proof.
  intros Hk. rewrite repo_totals_served. unfold Obj.get_or0. rewrite aggregate_get, Hk.
  cbn [andb]. destruct (existsb _ _) eqn:E; [reflexivity|].
  induction (served_tree gh token branch full) as [|x r IH]; [reflexivity|].
  simpl in *. apply orb_false_elim in E as [Hx Hr]. rewrite Hx. now apply IH.
Qed.

Lemma served_tree_nonneg full :
  match resolved gh token branch full with
  | Some (Return tree) => tree_sizes_nonneg tree
  | _ => true
  end = true ->
  tree_sizes_nonneg (served_tree gh token branch full) = true.
Proof.
  unfold served_tree. destruct (resolved gh token branch full) as [[tree|e]|]; auto.
Qed.

Lemma total_positive_iff k names :
  JS.truthy k = true ->
  served_sizes_nonneg gh token branch names = true ->
  0 <= fold_right (fun o acc => Obj.get_or0 k o + acc) 0
         (map (repo_totals languageMap gh token branch) names)
  /\ (0 < fold_right (fun o acc => Obj.get_or0 k o + acc) 0
            (map (repo_totals languageMap gh token branch) names)
      <-> some_file_nonempty languageMap gh token branch names k = true).
Proof.
  intros Hk. unfold served_sizes_nonneg, some_file_nonempty.
  induction names as [|full r IH]; simpl.
  - intros _. split; [lia|]. split; [lia | discriminate].
  - intros H. apply andb_prop in H as [Hf Hr]. destruct (IH Hr) as [Hge Hiff].
    rewrite (counted_sum_of_repo k full Hk).
    destruct (sum_sizes_positive (counts_for languageMap k) _ (served_tree_nonneg full Hf))
      as [Hge' Hiff'].
    fold (has_nonempty_file languageMap k (served_tree gh token branch full)) in Hiff'.
    split; [lia|]. rewrite orb_true_iff, <- Hiff, <- Hiff'. lia.
Qed.

Lemma key_of_totals_truthy k names :
  existsb (Obj.has k) (map (repo_totals languageMap gh token branch) names) = true ->
  JS.truthy k = true.
Proof.
  intros H. apply existsb_exists in H as (o & Ho & Hhas).
  apply in_map_iff in Ho as (full & <- & _).
  unfold Obj.has in Hhas. rewrite repo_totals_served, aggregate_get in Hhas.
  destruct (JS.truthy k); [reflexivity | discriminate].
Qed.

End PositiveUnlessEmpty.

(** C7, as the code has it. When no served tree entry has a negative size,
    every item that the ranking step produces from the aggregated totals has
    a size that is strictly positive unless every counted file of its
    language is empty, in which case the size is 0: the size is never
    negative, and it is positive exactly when some counted file of the
    language is not empty. *)
Theorem ranked_sizes_positive_unless_empty :
  forall (languageMap : Catalog) (gh : Upstream) (token branch : string)
         (names : list string) (totals : Obj.t) (hideList : list string) (topN : Z),
    served_sizes_nonneg gh token branch names = true ->
    fst (run (aggregateRepos languageMap gh token names branch)) = Return totals ->
    Forall (fun it =>
              0 <= Ranked.size it
              /\ (0 < Ranked.size it
                  <-> some_file_nonempty languageMap gh token branch names (Ranked.name it)
                      = true))
           (rank totals hideList topN).
Proof.
  intros languageMap gh token branch names totals hideList topN Hserved Hrun.
  destruct (aggregateRepos_return_inv languageMap gh token branch names totals Hrun)
    as [Hnd Hget].
  apply Forall_forall. intros it Hin.
  apply in_rank in Hin as [Hin _]. apply in_top_entries in Hin as [Hin _].
  apply in_get in Hin; [|assumption].
  rewrite Hget in Hin. unfold pointwise_sum in Hin.
  destruct (existsb (Obj.has (Ranked.name it)) _) eqn:Hhas; [|discriminate].
  injection Hin as Hsize. rewrite <- Hsize.
  apply total_positive_iff; [|exact Hserved].
  eapply key_of_totals_truthy. exact Hhas.
Qed.

Lemma ranked_sizes_positive_unless_empty_witness :
  served_sizes_nonneg Demo.gh "t" "develop" ["u/B"; "u/E"] = true
  /\ fst (run (aggregateRepos Demo.catalog Demo.gh "t" ["u/B"; "u/E"] "develop"))
     = Return [("Go", 50); ("Rust", 30); ("Python", 0)]
  /\ some_file_nonempty Demo.catalog Demo.gh "t" "develop" ["u/B"; "u/E"] "Rust" = true
  /\ some_file_nonempty Demo.catalog Demo.gh "t" "develop" ["u/B"; "u/E"] "Python" = false
  /\ Forall (fun it =>
               0 <= Ranked.size it
               /\ (0 < Ranked.size it
                   <-> some_file_nonempty Demo.catalog Demo.gh "t" "develop" ["u/B"; "u/E"]
                         (Ranked.name it) = true))
            (rank [("Go", 50); ("Rust", 30); ("Python", 0)] [] 6).
Proof.
  split; [reflexivity|]. split; [reflexivity|]. split; [reflexivity|]. split; [reflexivity|].
  apply (ranked_sizes_positive_unless_empty Demo.catalog Demo.gh "t" "develop" ["u/B"; "u/E"]);
    reflexivity.
Defined.

(** C7, as stated, fails: a repository whose only classified file is empty
    is aggregated to a total of 0 bytes, and the ranking step returns that
    language with size 0. *)
Lemma ranked_item_of_size_zero :
  fst (run (aggregateRepos Demo.catalog Demo.gh "t" ["u/E"] "develop"))
  = Return [("Python", 0)]
  /\ rank [("Python", 0)] [] 6 = [Ranked.mk "Python" 0 0%Q]
  /\ ~ Forall (fun it => 0 < Ranked.size it) (rank [("Python", 0)] [] 6).
Proof.
  split; [reflexivity|]. split; [reflexivity|].
  intros H. inversion H as [|it r Hpos _]. simpl in Hpos. lia.
Qed.

(** ** The number of ranked items *)

Lemma clampValue_bounds n lo hi : lo <= hi -> lo <= clampValue n lo hi <= hi.
Proof. unfold clampValue. lia. Qed.

(** C8, as the code has it. [rank] returns at most [topN] items, and [topN]
    always lies in [1, 20]: it is the requested [langs_count] clamped into
    [1, 20] when the request parses to a non-zero integer, and the default 6
    otherwise. A request of 500 gives [topN = 20] and, on 25 languages,
    exactly 20 items. *)
Theorem rank_at_most_topN :
  (forall (totals : Obj.t) (hideList : list string) (langs_count : option string),
      let topN := clamped_param (default "6" langs_count) 6 1 20 in
      1 <= topN <= 20
      /\ (length (rank totals hideList topN) <= Z.to_nat topN)%nat
      /\ (forall n, JS.parseInt (default "6" langs_count) = Some n -> n <> 0 ->
                    topN = clampValue n 1 20)
      /\ (JS.parseInt (default "6" langs_count) = None
          \/ JS.parseInt (default "6" langs_count) = Some 0 -> topN = 6))
  /\ clamped_param (default "6" (Some "500")) 6 1 20 = 20
  /\ length Demo.many_totals = 25%nat
  /\ length (rank Demo.many_totals [] (clamped_param (default "6" (Some "500")) 6 1 20))
     = 20%nat.
Proof.
  split; [|repeat split; reflexivity].
  intros totals hideList langs_count topN.
  assert (Hb : 1 <= topN <= 20) by (apply clampValue_bounds; lia).
  split; [exact Hb|]. split; [|split].
  - rewrite rank_length by lia. apply Nat.le_min_l.
  - intros n Hn Hnz. subst topN. unfold clamped_param. rewrite Hn.
    destruct n; [congruence | reflexivity | reflexivity].
  - intros [Hn|Hn]; subst topN; unfold clamped_param; rewrite Hn; reflexivity.
Qed.

Lemma rank_at_most_topN_witness :
  JS.parseInt (default "6" (Some " 3 langs")) = Some 3
  /\ 3 <> 0
  /\ clamped_param (default "6" (Some " 3 langs")) 6 1 20 = clampValue 3 1 20
  /\ JS.parseInt (default "6" (Some "many")) = None
  /\ clamped_param (default "6" (Some "many")) 6 1 20 = 6.
Proof.
  split; [reflexivity|]. split; [lia|]. split.
  - apply (proj1 rank_at_most_topN [] [] (Some " 3 langs")); [reflexivity | lia].
  - split; [reflexivity|].
    apply (proj1 rank_at_most_topN [] [] (Some "many")). left. reflexivity.
Defined.

(** C8, as stated, fails: a request of 0 does not give the clamped value 1
    but the default 6, and three languages are then all returned. *)
Lemma langs_count_zero_is_default :
  JS.parseInt (default "6" (Some "0")) = Some 0
  /\ clampValue 0 1 20 = 1
  /\ clamped_param (default "6" (Some "0")) 6 1 20 = 6
  /\ ~ Nat.le (length (rank [("Go", 150); ("Rust", 30); ("Python", 10)] []
                            (clamped_param (default "6" (Some "0")) 6 1 20)))
               (Z.to_nat (clampValue 0 1 20)).
Proof.
  repeat split. simpl. lia.
Qed.

(** ** Resolution of one tree: which statuses are errors *)

Section Abort.

Variable languageMap : Catalog.
Variable gh : Upstream.
Variable renderTopLanguages : list CardLang -> RenderOptions -> string.

Lemma aggregateRepos_aborts token branch names full e :
  In full names ->
  resolved gh token branch full = Some (Throw e) ->
  exists e', fst (run (aggregateRepos languageMap gh token names branch)) = Throw e'.
Proof.
  intros Hin Hres. apply aggregate_loop_throws.
  destruct (forallb (resolves gh token branch) names) eqn:E; auto.
  rewrite forallb_forall in E. specialize (E full Hin).
  unfold resolves in E. rewrite Hres in E. discriminate.
Qed.

Lemma handler_aborts tok q listed log1 :
  JS.truthy tok = true ->
  JS.truthy_opt (user q) = true ->
  run (fetchAllUserRepos gh tok (default "" (user q))
         (toBool (include_forks q) false) (toBool (include_archived q) false))
  = (Return listed, log1) ->
  forallb (resolves gh tok (default "develop" (branch q)))
          (select_repos listed (lower_set (default "" (exclude_repos q)))
                        (clamped_param (default "60" (max_repos q)) 60 1 300))
  = false ->
  exists e, fst (run (handler languageMap gh renderTopLanguages (Some tok) q))
            = Return (mkReply 500 [] (ErrorMessage e)).
Proof.
  intros Htok Huser Hlist Hres.
  unfold run, handler, catch_all.
  change (JS.truthy_opt (Some tok)) with (JS.truthy tok).
  rewrite Htok, Huser. change (negb true) with false. cbv beta iota.
  change (default "" (Some tok)) with tok.
  unfold bind at 1.
  unfold run in Hlist. rewrite Hlist.
  destruct (select_repos _ _ _) as [|full rest] eqn:Hsel; [discriminate|].
  destruct (aggregate_loop_throws languageMap gh tok (default "develop" (branch q))
              (full :: rest) [] log1 Hres) as [e He].
  exists e. unfold bind, aggregateRepos.
  destruct (aggregate_loop _ _ _ _ _ _ _) as [[totals|e'] log2]; simpl in He; [discriminate|].
  injection He as ->. reflexivity.
Qed.

End Abort.

(** C4. [fetchRepoTreeByBranch] returns the empty sequence when the branch
    lookup answers 404 and when the tree fetch answers 409; any other
    non-success status of the branch lookup, or of the tree fetch, is thrown
    as an error. Such an error is not caught by [aggregateRepos], which then
    returns no totals at all, and makes the handler answer 500. *)
Theorem fetchRepoTreeByBranch_status_policy :
  (forall (gh : Upstream) (token owner repo branch : string),
      let bRes := get_branch gh owner repo branch in
      let outcome := fst (run (fetchRepoTreeByBranch gh token owner repo branch)) in
      (status bRes = 404 -> outcome = Return [])
      /\ (ok bRes = false -> status bRes <> 404 ->
          outcome = Throw (BranchLookupFailed owner repo branch (status bRes)))
      /\ (forall sha, ok bRes = true -> json bRes = Some sha -> JS.truthy sha = true ->
            let tRes := get_tree gh owner repo sha in
            (status tRes = 409 -> outcome = Return [])
            /\ (ok tRes = false -> status tRes <> 409 ->
                outcome = Throw (TreeFetchFailed owner repo sha (status tRes)))))
  /\ (forall (languageMap : Catalog) (gh : Upstream) (token branch : string)
             (names : list string) (full : string) (e : Failure),
         In full names ->
         resolved gh token branch full = Some (Throw e) ->
         exists e', fst (run (aggregateRepos languageMap gh token names branch)) = Throw e')
  /\ (forall (languageMap : Catalog) (gh : Upstream)
             (renderTopLanguages : list CardLang -> RenderOptions -> string)
             (tok : string) (q : Query) (listed : list string) (log1 : list Call),
         JS.truthy tok = true ->
         JS.truthy_opt (user q) = true ->
         run (fetchAllUserRepos gh tok (default "" (user q))
                (toBool (include_forks q) false) (toBool (include_archived q) false))
         = (Return listed, log1) ->
         forallb (resolves gh tok (default "develop" (branch q)))
                 (select_repos listed (lower_set (default "" (exclude_repos q)))
                               (clamped_param (default "60" (max_repos q)) 60 1 300))
         = false ->
         exists e, fst (run (handler languageMap gh renderTopLanguages (Some tok) q))
                   = Return (mkReply 500 [] (ErrorMessage e))).
Proof.
  split; [|split].
  - intros gh token owner repo branch bRes outcome. subst bRes outcome.
    unfold run, fetchRepoTreeByBranch, bind, fetch, ret, throw. cbv beta iota.
    split; [|split].
    + intros H.
      assert (Hok : ok (get_branch gh owner repo branch) = false)
        by (unfold ok; rewrite H; reflexivity).
      rewrite Hok, H. reflexivity.
    + intros Hok Hst. apply Z.eqb_neq in Hst. rewrite Hok, Hst. reflexivity.
    + intros sha Hok Hsha Htruthy.
      rewrite Hok, Hsha, Htruthy. cbv beta iota. change (negb true) with false.
      cbv beta iota. split.
      * intros H.
        assert (Hok' : ok (get_tree gh owner repo sha) = false)
          by (unfold ok; rewrite H; reflexivity).
        rewrite Hok', H. reflexivity.
      * intros Hok' Hst. apply Z.eqb_neq in Hst. rewrite Hok', Hst. reflexivity.
  - intros. eapply aggregateRepos_aborts; eassumption.
  - intros. eapply handler_aborts; eassumption.
Qed.

Lemma fetchRepoTreeByBranch_status_policy_witness :
  (status (get_branch Demo.gh "u" "missing" "develop") = 404
   /\ fst (run (fetchRepoTreeByBranch Demo.gh "t" "u" "missing" "develop")) = Return [])
  /\ (ok (get_branch Demo.gh "u" "broken" "develop") = false
      /\ status (get_branch Demo.gh "u" "broken" "develop") <> 404
      /\ fst (run (fetchRepoTreeByBranch Demo.gh "t" "u" "broken" "develop"))
         = Throw (BranchLookupFailed "u" "broken" "develop" 500))
  /\ (json (get_branch Demo.gh "u" "empty" "develop") = Some "sha-empty"
      /\ status (get_tree Demo.gh "u" "empty" "sha-empty") = 409
      /\ fst (run (fetchRepoTreeByBranch Demo.gh "t" "u" "empty" "develop")) = Return [])
  /\ (json (get_branch Demo.gh "u" "treefail" "develop") = Some "sha-treefail"
      /\ ok (get_tree Demo.gh "u" "treefail" "sha-treefail") = false
      /\ status (get_tree Demo.gh "u" "treefail" "sha-treefail") <> 409
      /\ fst (run (fetchRepoTreeByBranch Demo.gh "t" "u" "treefail" "develop"))
         = Throw (TreeFetchFailed "u" "treefail" "sha-treefail" 502))
  /\ (In "u/treefail" ["u/A"; "u/treefail"; "u/B"]
      /\ resolved Demo.gh "t" "develop" "u/treefail"
         = Some (Throw (TreeFetchFailed "u" "treefail" "sha-treefail" 502))
      /\ exists e', fst (run (aggregateRepos Demo.catalog Demo.gh "t"
                                ["u/A"; "u/treefail"; "u/B"] "develop")) = Throw e')
  /\ (run (fetchAllUserRepos Demo.gh "t" "w" false false)
      = (Return ["w/A"; "w/treefail"], [ListRepos "w" 1; ListRepos "w" 2])
      /\ exists e, fst (run (handler Demo.catalog Demo.gh Demo.render (Some "t")
                               (Demo.for_user "w")))
                   = Return (mkReply 500 [] (ErrorMessage e))).
Proof.
  pose proof fetchRepoTreeByBranch_status_policy as (Hpolicy & Habort & Hhandler).
  split; [|split; [|split; [|split; [|split]]]].
  - split; [reflexivity|].
    apply (proj1 (Hpolicy Demo.gh "t" "u" "missing" "develop")). reflexivity.
  - split; [reflexivity|]. split; [simpl; lia|].
    apply (proj1 (proj2 (Hpolicy Demo.gh "t" "u" "broken" "develop")));
      [reflexivity | simpl; lia].
  - split; [reflexivity|]. split; [reflexivity|].
    apply (proj1 (proj2 (proj2 (Hpolicy Demo.gh "t" "u" "empty" "develop")) "sha-empty"
                    eq_refl eq_refl eq_refl)).
    reflexivity.
  - split; [reflexivity|]. split; [reflexivity|]. split; [simpl; lia|].
    apply (proj2 (proj2 (proj2 (Hpolicy Demo.gh "t" "u" "treefail" "develop")) "sha-treefail"
                    eq_refl eq_refl eq_refl));
      [reflexivity | simpl; lia].
  - split; [simpl; tauto|]. split; [reflexivity|].
    apply (Habort Demo.catalog Demo.gh "t" "develop" ["u/A"; "u/treefail"; "u/B"]
             "u/treefail" (TreeFetchFailed "u" "treefail" "sha-treefail" 502));
      [simpl; tauto | reflexivity].
  - split; [reflexivity|].
    apply (Hhandler Demo.catalog Demo.gh Demo.render "t" (Demo.for_user "w")
             ["w/A"; "w/treefail"] [ListRepos "w" 1; ListRepos "w" 2]); reflexivity.
Defined.

(** C10. When the branch lookup succeeds but its body carries no commit SHA
    (absent or empty), [fetchRepoTreeByBranch] returns the empty tree after
    that single call: no error is thrown and no tree is fetched. A
    repository in that state adds nothing to the totals. *)
Theorem fetchRepoTreeByBranch_without_sha :
  forall (gh : Upstream) (token owner repo branch : string),
    ok (get_branch gh owner repo branch) = true ->
    JS.truthy_opt (json (get_branch gh owner repo branch)) = false ->
    run (fetchRepoTreeByBranch gh token owner repo branch)
    = (Return [], [GetBranch owner repo branch])
    /\ forall (languageMap : Catalog) (full : string),
         owner_repo full = (Some owner, Some repo) ->
         JS.truthy owner = true -> JS.truthy repo = true ->
         run (aggregateRepos languageMap gh token [full] branch)
         = (Return [], [GetBranch owner repo branch]).
Proof.
  intros gh token owner repo branch Hok Hsha.
  assert (Hrun : run (fetchRepoTreeByBranch gh token owner repo branch)
                 = (Return [], [GetBranch owner repo branch])).
  { unfold run, fetchRepoTreeByBranch, bind, fetch, ret. cbv beta iota.
    rewrite Hok. change (negb true) with false. cbv beta iota.
    destruct (json (get_branch gh owner repo branch)) as [sha|]; [|reflexivity].
    simpl in Hsha. rewrite Hsha. reflexivity. }
  split; [exact Hrun|].
  intros languageMap full Hfull Ho Hr.
  unfold run, aggregateRepos, aggregate_loop. rewrite Hfull.
  change (JS.truthy_opt (Some owner)) with (JS.truthy owner).
  change (JS.truthy_opt (Some repo)) with (JS.truthy repo).
  rewrite Ho, Hr. change (negb true || negb true) with false.
  cbv beta iota. unfold bind. unfold run in Hrun. rewrite Hrun. reflexivity.
Qed.

Lemma fetchRepoTreeByBranch_without_sha_witness :
  ok (get_branch Demo.gh "u" "nosha" "develop") = true
  /\ JS.truthy_opt (json (get_branch Demo.gh "u" "nosha" "develop")) = false
  /\ run (fetchRepoTreeByBranch Demo.gh "t" "u" "nosha" "develop")
     = (Return [], [GetBranch "u" "nosha" "develop"])
  /\ run (aggregateRepos Demo.catalog Demo.gh "t" ["u/nosha"] "develop")
     = (Return [], [GetBranch "u" "nosha" "develop"]).
Proof.
  split; [reflexivity|]. split; [reflexivity|].
  destruct (fetchRepoTreeByBranch_without_sha Demo.gh "t" "u" "nosha" "develop"
              eq_refl eq_refl) as [Hrun Hagg].
  split; [exact Hrun|].
  apply (Hagg Demo.catalog "u/nosha"); reflexivity.
Defined.

(** ** Order of the checks of the handler *)

(** C5, as the code has it. Both handlers check the credential first: when
    [PAT_1] is not set the reply is 500 whatever the query holds, and only
    when it is set does a missing [user] give 400. Neither reply needs an
    upstream call. *)
Theorem handler_checks_credential_then_user :
  forall (languageMap : Catalog) (gh : Upstream)
         (renderTopLanguages : list CardLang -> RenderOptions -> string)
         (PAT_1 : option string) (q : Query),
    (JS.truthy_opt PAT_1 = false ->
     run (handler languageMap gh renderTopLanguages PAT_1 q)
     = (Return (mkReply 500 [] (Text "PAT_1 env not set")), [])
     /\ run (handler_variant languageMap gh renderTopLanguages PAT_1 q)
        = (Return (mkReply 500 [] (Text "PAT_1 env not set")), []))
    /\ (JS.truthy_opt PAT_1 = true -> JS.truthy_opt (user q) = false ->
        run (handler languageMap gh renderTopLanguages PAT_1 q)
        = (Return (mkReply 400 [] (Text "Provide ?user=username")), [])
        /\ run (handler_variant languageMap gh renderTopLanguages PAT_1 q)
           = (Return (mkReply 400 [] (Text "Provide ?user=username")), [])).
Proof.
  intros languageMap gh renderTopLanguages PAT_1 q. split.
  - intros Htok. unfold run, handler, handler_variant, catch_all.
    rewrite Htok. split; reflexivity.
  - intros Htok Huser. unfold run, handler, handler_variant, catch_all.
    rewrite Htok, Huser. split; reflexivity.
Qed.

Lemma handler_checks_credential_then_user_witness :
  (JS.truthy_opt None = false
   /\ reply_code (handler Demo.catalog Demo.gh Demo.render None (Demo.for_user "u")) = Some 500
   /\ reply_code (handler Demo.catalog Demo.gh Demo.render None Demo.no_params) = Some 500)
  /\ (JS.truthy_opt (Some "t") = true
      /\ JS.truthy_opt (user Demo.no_params) = false
      /\ reply_code (handler Demo.catalog Demo.gh Demo.render (Some "t") Demo.no_params)
         = Some 400
      /\ reply_code (handler_variant Demo.catalog Demo.gh Demo.render (Some "t") Demo.no_params)
         = Some 400).
Proof.
  split.
  - split; [reflexivity|]. unfold reply_code. split.
    + rewrite (proj1 (proj1 (handler_checks_credential_then_user Demo.catalog Demo.gh
                               Demo.render None (Demo.for_user "u")) eq_refl)).
      reflexivity.
    + rewrite (proj1 (proj1 (handler_checks_credential_then_user Demo.catalog Demo.gh
                               Demo.render None Demo.no_params) eq_refl)).
      reflexivity.
  - split; [reflexivity|]. split; [reflexivity|]. unfold reply_code.
    destruct (proj2 (handler_checks_credential_then_user Demo.catalog Demo.gh
                       Demo.render (Some "t") Demo.no_params) eq_refl eq_refl) as [H1 H2].
    rewrite H1, H2. split; reflexivity.
Defined.

(** C5, as stated, fails: a request without [user] is answered 500, not 400,
    when the credential is not configured either. *)
Lemma missing_user_without_credential :
  user Demo.no_params = None
  /\ reply_code (handler Demo.catalog Demo.gh Demo.render None Demo.no_params) = Some 500
  /\ reply_code (handler_variant Demo.catalog Demo.gh Demo.render None Demo.no_params) = Some 500
  /\ reply_code (handler Demo.catalog Demo.gh Demo.render None Demo.no_params) <> Some 400.
Proof.
  repeat split. discriminate.
Qed.

(** ** The classifier on paths with directories *)

(** C6 on the code. [extToLanguage] looks for the last dot of the whole
    path: the dotfile [.gitignore] has no extension and is not classified at
    the root of the tree, but the same file inside a directory is classified
    by what follows its dot. *)
Theorem extToLanguage_nested_dotfile :
  final_segment "src/.gitignore" = ".gitignore"
  /\ no_extension (final_segment "src/.gitignore") = true
  /\ extToLanguage Demo.catalog ".gitignore" = None
  /\ JS.lastIndexOf "src/.gitignore" "."%char = 4
  /\ extToLanguage Demo.catalog "src/.gitignore" = Some "Ignore List"
  /\ aggregateByLanguageFromTree Demo.catalog [Demo.blob "src/.gitignore" 12]
     = [("Ignore List", 12)].
Proof. repeat split. Qed.

(** * Further properties of the code *)

(** ** The log of calls *)

Section LogFacts.

Lemma appends_only_ret {A} (a : A) : appends_only (ret a).
Proof. intros log. unfold run, ret. simpl. now rewrite app_nil_r. Qed.

Lemma appends_only_throw {A} (e : Failure) : appends_only (@throw A e).
Proof. intros log. unfold run, throw. simpl. now rewrite app_nil_r. Qed.

Lemma appends_only_fetch {A} c (r : Response A) : appends_only (fetch c r).
Proof. intros log. reflexivity. Qed.

Lemma appends_only_bind {A B} (m : M A) (k : A -> M B) :
  appends_only m -> (forall a, appends_only (k a)) -> appends_only (bind m k).
Proof.
  intros Hm Hk log. unfold run, bind. rewrite (Hm log). unfold run.
  destruct (m []) as [[a|e] l0]; simpl; [|reflexivity].
  rewrite (Hk a (log ++ l0)%list), (Hk a l0). simpl. now rewrite app_assoc.
Qed.

(** What a sequence of two steps does from the empty log. *)
Lemma run_bind {A B} (m : M A) (k : A -> M B) :
  (forall a, appends_only (k a)) ->
  run (bind m k)
  = match run m with
    | (Return a, l) => (fst (run (k a)), (l ++ snd (run (k a)))%list)
    | (Throw e, l) => (Throw e, l)
    end.
Proof.
  intros Hk. unfold run, bind. destruct (m []) as [[a|e] l]; [|reflexivity].
  apply Hk.
Qed.

Lemma appends_only_catch_all (m : M Reply) : appends_only m -> appends_only (catch_all m).
Proof.
  intros Hm log. unfold run, catch_all. rewrite (Hm log). unfold run.
  destruct (m []) as [[r|e] l]; reflexivity.
Qed.

Variable languageMap : Catalog.
Variable gh : Upstream.

Lemma list_pages_appends user f a pages : forall page acc,
  appends_only (list_pages gh user f a pages page acc).
Proof.
  induction pages as [|p IH]; intros page acc; simpl.
  - apply appends_only_ret.
  - apply appends_only_bind; [apply appends_only_fetch|].
    intros r. destruct (negb (ok r)); [apply appends_only_throw|].
    destruct (json r) as [[|repo js]|]; try apply appends_only_ret. apply IH.
Qed.

Lemma fetchAllUserRepos_appends token user f a :
  appends_only (fetchAllUserRepos gh token user f a).
Proof.
  apply appends_only_bind; [apply list_pages_appends|].
  intros acc. apply appends_only_ret.
Qed.

Lemma fetchRepoTreeByBranch_appends token owner repo branch :
  appends_only (fetchRepoTreeByBranch gh token owner repo branch).
Proof. intros log. apply fetchRepoTree_log. Qed.

Lemma aggregate_loop_appends token branch names : forall grand,
  appends_only (aggregate_loop languageMap gh token names branch grand).
Proof.
  induction names as [|full rest IH]; intros grand; simpl.
  - apply appends_only_ret.
  - destruct (owner_repo full) as [owner repo].
    destruct (negb (JS.truthy_opt owner) || negb (JS.truthy_opt repo)); [apply IH|].
    apply appends_only_bind; [apply fetchRepoTreeByBranch_appends|].
    intros [|item tree]; apply IH.
Qed.

Lemma list_pages_log user f a pages : forall page acc,
  exists k, (k <= pages)%nat /\ (pages <> 0%nat -> k <> 0%nat)
            /\ snd (run (list_pages gh user f a pages page acc)) = listing_calls user page k.
Proof.
  induction pages as [|p IH]; intros page acc.
  - exists 0%nat. repeat split; auto.
  - simpl list_pages. rewrite run_bind.
    2: { intros r. destruct (negb (ok r)); [apply appends_only_throw|].
         destruct (json r) as [[|repo js]|]; try apply appends_only_ret.
         apply list_pages_appends. }
    unfold run at 1, fetch. simpl app.
    assert (Hone : [ListRepos user page] = listing_calls user page 1).
    { unfold listing_calls. simpl. now rewrite Z.add_0_r. }
    destruct (negb (ok (list_repos gh user page))).
    { exists 1%nat. repeat split; auto with arith. }
    destruct (json (list_repos gh user page)) as [[|repo js]|].
    1, 3: exists 1%nat; repeat split; auto with arith.
    match goal with |- context [list_pages gh user f a p (page + 1) ?acc'] =>
      destruct (IH (page + 1) acc') as (k & Hk & _ & Hlog) end.
    exists (S k). split; [lia|]. split; [discriminate|].
    cbn [snd]. rewrite Hlog. unfold listing_calls. simpl. rewrite Z.add_0_r. f_equal.
    rewrite <- seq_shift, map_map. apply map_ext. intros i. f_equal. lia.
Qed.

End LogFacts.

Lemma fetchAllUserRepos_log (gh : Upstream) token user f a :
  exists k, (1 <= k <= 5)%nat
            /\ snd (run (fetchAllUserRepos gh token user f a)) = listing_calls user 1 k.
Proof.
  destruct (list_pages_log gh user f a 5 1 []) as (k & Hk & Hpos & Hlog).
  exists k. split; [split; [|exact Hk]|].
  - destruct k; [exfalso; apply Hpos; auto | lia].
  - unfold fetchAllUserRepos. rewrite run_bind by (intros; apply appends_only_ret).
    destruct (run (list_pages gh user f a 5 1 [])) as [[acc|e] l]; simpl in *;
      [rewrite app_nil_r|]; exact Hlog.
Qed.

(** X1. [fetchAllUserRepos] sends between one and five requests, all of them
    listing requests for the given user, for the pages 1, 2, ... in order
    without a gap; it never looks up a branch or a tree. *)
Theorem fetchAllUserRepos_requests_pages_in_order :
  forall (gh : Upstream) (token user : string) (includeForks includeArchived : bool),
  exists k, (1 <= k <= 5)%nat
            /\ snd (run (fetchAllUserRepos gh token user includeForks includeArchived))
               = listing_calls user 1 k.
Proof. intros. apply fetchAllUserRepos_log. Qed.

(** ** The repository listing *)

Section ListingFacts.

Variable gh : Upstream.
Variable user : string.
Variables includeForks includeArchived : bool.

Lemma served_and_kept_shift first n r :
  served_and_kept gh user includeForks includeArchived (first + 1) n r -> served_and_kept gh user includeForks includeArchived first (S n) r.
Proof.
  intros (page & js & Hr & H). exists page, js. split; [lia | exact H].
Qed.

Lemma list_pages_sound pages : forall page acc res,
  fst (run (list_pages gh user includeForks includeArchived pages page acc)) = Return res ->
  forall r, In r res -> In r acc \/ served_and_kept gh user includeForks includeArchived page pages r.
Proof.
  induction pages as [|p IH]; intros page acc res Hrun r Hin.
  - simpl in Hrun. injection Hrun as <-. now left.
  - simpl list_pages in Hrun. rewrite run_bind in Hrun.
    2: { intros x. destruct (negb (ok x)); [apply appends_only_throw|].
         destruct (json x) as [[|repo js]|]; try apply appends_only_ret.
         apply list_pages_appends. }
    unfold run at 1, fetch in Hrun. cbn [fst] in Hrun.
    destruct (ok (list_repos gh user page)) eqn:Hok; [|discriminate].
    cbn [negb] in Hrun.
    destruct (json (list_repos gh user page)) as [[|repo js]|] eqn:Hjs.
    1, 3: (injection Hrun as <-; now left).
    destruct (IH _ _ _ Hrun r Hin) as [Hacc|Hserved].
    + apply in_app_or in Hacc as [Hacc|Hnew]; [now left|]. right.
      apply filter_In in Hnew as [Hjs' Hkeep].
      exists page, (repo :: js). repeat split; auto; try lia.
      * intros Hf. rewrite Hf in Hkeep. destruct includeForks; [reflexivity | discriminate].
      * intros Ha. rewrite Ha in Hkeep.
        destruct (negb includeForks && fork r); [discriminate|].
        destruct includeArchived; [reflexivity | discriminate].
    + right. now apply served_and_kept_shift.
Qed.

Lemma list_pages_throws pages : forall page acc e,
  fst (run (list_pages gh user includeForks includeArchived pages page acc)) = Throw e ->
  exists pg, page <= pg < page + Z.of_nat pages
             /\ ok (list_repos gh user pg) = false
             /\ e = ListReposFailed user (status (list_repos gh user pg)).
Proof.
  induction pages as [|p IH]; intros page acc e Hrun.
  - discriminate.
  - simpl list_pages in Hrun. rewrite run_bind in Hrun.
    2: { intros x. destruct (negb (ok x)); [apply appends_only_throw|].
         destruct (json x) as [[|repo js]|]; try apply appends_only_ret.
         apply list_pages_appends. }
    unfold run at 1, fetch in Hrun. cbn [fst] in Hrun.
    destruct (ok (list_repos gh user page)) eqn:Hok; cbn [negb] in Hrun.
    + destruct (json (list_repos gh user page)) as [[|repo js]|]; try discriminate.
      destruct (IH _ _ _ Hrun) as (pg & Hr & H). exists pg. split; [lia | exact H].
    + injection Hrun as <-. exists page. repeat split; auto; lia.
Qed.

End ListingFacts.

(** X2. Every name that [fetchAllUserRepos] returns is the full name of a
    repository served on one of the pages 1 to 5, on a page answered with
    success, and it passed the filters: a fork is returned only when forks
    are included, an archived repository only when archived ones are. *)
Theorem fetchAllUserRepos_returns_kept_repos :
  forall (gh : Upstream) (token user : string) (includeForks includeArchived : bool)
         (names : list string) (name : string),
    fst (run (fetchAllUserRepos gh token user includeForks includeArchived)) = Return names ->
    In name names ->
    exists r, full_name r = name
              /\ served_and_kept gh user includeForks includeArchived 1 5 r.
Proof.
  intros gh token user f a names name Hrun Hin.
  unfold fetchAllUserRepos in Hrun. rewrite run_bind in Hrun by (intros; apply appends_only_ret).
  destruct (run (list_pages gh user f a 5 1 [])) as [[acc|e] l] eqn:Hpages; [|discriminate].
  cbn in Hrun. injection Hrun as <-.
  apply in_map_iff in Hin as (r & Hname & Hr). exists r. split; [exact Hname|].
  destruct (list_pages_sound gh user f a 5 1 [] acc) with (r := r) as [[]|H]; auto.
  now rewrite Hpages.
Qed.

Lemma fetchAllUserRepos_returns_kept_repos_witness :
  fst (run (fetchAllUserRepos Demo.gh "t" "u" false false)) = Return ["u/A"; "u/B"]
  /\ In "u/B" ["u/A"; "u/B"]
  /\ exists r, full_name r = "u/B" /\ served_and_kept Demo.gh "u" false false 1 5 r.
Proof.
  split; [reflexivity|]. split; [simpl; tauto|].
  apply (fetchAllUserRepos_returns_kept_repos Demo.gh "t" "u" false false ["u/A"; "u/B"]);
    [reflexivity | simpl; tauto].
Defined.

(** X3. [fetchAllUserRepos] fails exactly through a listing answer that is
    not a success: the error it throws names the user and carries the status
    of such a page among the pages 1 to 5, and a first page that is not a
    success makes it throw after that single request. *)
Theorem fetchAllUserRepos_failure :
  forall (gh : Upstream) (token user : string) (includeForks includeArchived : bool),
    (forall e,
        fst (run (fetchAllUserRepos gh token user includeForks includeArchived)) = Throw e ->
        exists page, 1 <= page <= 5
                     /\ ok (list_repos gh user page) = false
                     /\ e = ListReposFailed user (status (list_repos gh user page)))
    /\ (ok (list_repos gh user 1) = false ->
        run (fetchAllUserRepos gh token user includeForks includeArchived)
        = (Throw (ListReposFailed user (status (list_repos gh user 1))), [ListRepos user 1])).
Proof.
  intros gh token user f a. split.
  - intros e Hrun. unfold fetchAllUserRepos in Hrun.
    rewrite run_bind in Hrun by (intros; apply appends_only_ret).
    destruct (run (list_pages gh user f a 5 1 [])) as [[acc|e'] l] eqn:Hpages; [discriminate|].
    cbn in Hrun. injection Hrun as <-.
    destruct (list_pages_throws gh user f a 5 1 [] e') as (pg & Hr & H).
    + now rewrite Hpages.
    + exists pg. split; [lia | exact H].
  - intros Hok. unfold run, fetchAllUserRepos, bind. simpl list_pages.
    unfold bind, fetch. rewrite Hok. reflexivity.
Qed.

Lemma fetchAllUserRepos_failure_witness :
  fst (run (fetchAllUserRepos (failing_from 3) "t" "u" false false))
  = Throw (ListReposFailed "u" 503)
  /\ (exists page, 1 <= page <= 5
                   /\ ok (list_repos (failing_from 3) "u" page) = false
                   /\ ListReposFailed "u" 503
                      = ListReposFailed "u" (status (list_repos (failing_from 3) "u" page)))
  /\ ok (list_repos (failing_from 1) "u" 1) = false
  /\ run (fetchAllUserRepos (failing_from 1) "t" "u" false false)
     = (Throw (ListReposFailed "u" 503), [ListRepos "u" 1]).
Proof.
  split; [reflexivity|]. split; [|split; [reflexivity|]].
  - apply (proj1 (fetchAllUserRepos_failure (failing_from 3) "t" "u" false false)).
    reflexivity.
  - apply (proj2 (fetchAllUserRepos_failure (failing_from 1) "t" "u" false false)).
    reflexivity.
Defined.

(** ** Calls sent while resolving trees *)

Section TreeCallFacts.

Variable languageMap : Catalog.
Variable gh : Upstream.
Variable token : string.
Variable branch : string.

Lemma fetchRepoTreeByBranch_log owner repo :
  snd (run (fetchRepoTreeByBranch gh token owner repo branch))
  = match json (get_branch gh owner repo branch) with
    | Some sha =>
        if ok (get_branch gh owner repo branch) && JS.truthy sha
        then [GetBranch owner repo branch; GetTree owner repo sha]
        else [GetBranch owner repo branch]
    | None => [GetBranch owner repo branch]
    end.
Proof.
  unfold run, fetchRepoTreeByBranch, bind, fetch, ret, throw. cbv beta iota.
  destruct (ok (get_branch gh owner repo branch)); cbn [negb andb].
  - destruct (json (get_branch gh owner repo branch)) as [sha|]; [|reflexivity].
    destruct (JS.truthy sha); cbn [negb]; [|reflexivity].
    destruct (negb (ok (get_tree gh owner repo sha))); [|reflexivity].
    destruct (_ =? 409); reflexivity.
  - destruct (_ =? 404), (json (get_branch gh owner repo branch)); reflexivity.
Qed.

Lemma calls_for_length full : (length (calls_for gh token branch full) <= 2)%nat.
Proof.
  unfold calls_for. destruct (owner_repo full) as [owner repo].
  destruct (negb (JS.truthy_opt owner) || negb (JS.truthy_opt repo)); simpl; [lia|].
  rewrite fetchRepoTreeByBranch_log.
  destruct (json _) as [sha|]; [destruct (_ && _)|]; simpl; lia.
Qed.

Lemma calls_for_malformed full : well_formed full = false -> calls_for gh token branch full = [].
Proof.
  unfold calls_for, well_formed. destruct (owner_repo full) as [owner repo].
  intros H. destruct (JS.truthy_opt owner), (JS.truthy_opt repo); simpl in *;
    congruence.
Qed.

(** One round of the loop of [aggregateRepos], in terms of what the name
    resolves to. *)
Lemma aggregate_loop_step full rest grand :
  run (aggregate_loop languageMap gh token (full :: rest) branch grand)
  = match resolved gh token branch full with
    | Some (Throw e) => (Throw e, calls_for gh token branch full)
    | _ =>
        let next := merge_totals grand (repo_totals languageMap gh token branch full) in
        (fst (run (aggregate_loop languageMap gh token rest branch next)),
         (calls_for gh token branch full
          ++ snd (run (aggregate_loop languageMap gh token rest branch next)))%list)
    end.
Proof.
  unfold resolved, repo_totals, resolved, calls_for. simpl aggregate_loop.
  destruct (owner_repo full) as [owner repo].
  destruct (negb (JS.truthy_opt owner) || negb (JS.truthy_opt repo)).
  - cbv zeta. rewrite merge_totals_nil. simpl app. now destruct (run _).
  - rewrite run_bind by (intros [|item tree]; apply aggregate_loop_appends).
    destruct (run (fetchRepoTreeByBranch _ _ _ _ _)) as [[tree|e] l]; cbn [fst snd];
      [|reflexivity].
    destruct tree as [|item tree]; [|reflexivity].
    cbv zeta. change (aggregateByLanguageFromTree languageMap []) with (@nil (string * Z)).
    now rewrite merge_totals_nil.
Qed.

Lemma resolves_resolved full :
  resolves gh token branch full
  = match resolved gh token branch full with Some (Throw _) => false | _ => true end.
Proof. reflexivity. Qed.

Lemma aggregate_loop_log names : forall grand,
  snd (run (aggregate_loop languageMap gh token names branch grand))
  = flat_map (calls_for gh token branch) (through_first_failure gh token branch names).
Proof.
  induction names as [|full rest IH]; intros grand; [reflexivity|].
  rewrite aggregate_loop_step. cbn [through_first_failure]. rewrite resolves_resolved.
  destruct (resolved gh token branch full) as [[tree|e]|]; cbn [snd flat_map].
  - now rewrite IH.
  - now rewrite app_nil_r.
  - now rewrite IH.
Qed.

Lemma aggregate_loop_first_failure names : forall grand,
  match first_failure gh token branch names with
  | Some e => fst (run (aggregate_loop languageMap gh token names branch grand)) = Throw e
  | None => exists total,
      fst (run (aggregate_loop languageMap gh token names branch grand)) = Return total
  end.
Proof.
  induction names as [|full rest IH]; intros grand.
  - simpl. eauto.
  - rewrite aggregate_loop_step. cbn [first_failure].
    destruct (resolved gh token branch full) as [[tree|e]|]; cbn [fst]; auto; apply IH.
Qed.

Lemma through_first_failure_log_length names :
  (length (flat_map (calls_for gh token branch) (through_first_failure gh token branch names))
   <= 2 * length (filter well_formed names))%nat.
Proof.
  induction names as [|full rest IH]; simpl; [lia|].
  pose proof (calls_for_length full) as H2.
  destruct (well_formed full) eqn:Hwf.
  - destruct (resolves gh token branch full); simpl; rewrite ?length_app; simpl; lia.
  - destruct (resolves gh token branch full); simpl;
      rewrite (calls_for_malformed full Hwf); simpl; lia.
Qed.

Lemma aggregate_loop_skips_malformed names : forall grand,
  run (aggregate_loop languageMap gh token names branch grand)
  = run (aggregate_loop languageMap gh token (filter well_formed names) branch grand).
Proof.
  induction names as [|full rest IH]; intros grand; [reflexivity|].
  cbn [filter]. destruct (well_formed full) eqn:Hwf.
  - rewrite !aggregate_loop_step.
    destruct (resolved gh token branch full) as [[tree|e]|]; cbv zeta; now rewrite ?IH.
  - rewrite aggregate_loop_step, <- IH.
    assert (Hres : resolved gh token branch full = None).
    { unfold resolved, well_formed in *. destruct (owner_repo full) as [owner repo].
      destruct (JS.truthy_opt owner), (JS.truthy_opt repo); simpl in *; congruence. }
    rewrite Hres. cbv zeta. unfold repo_totals. rewrite Hres, merge_totals_nil.
    rewrite calls_for_malformed by assumption. simpl app. now destruct (run _).
Qed.

End TreeCallFacts.

(** X4. [fetchRepoTreeByBranch] always sends the branch lookup first, and
    sends the tree request exactly when that lookup succeeded with a
    non-empty commit SHA, for that SHA; it sends nothing else. A non-empty
    tree is only ever returned from a successful tree answer. *)
Theorem fetchRepoTreeByBranch_calls :
  forall (gh : Upstream) (token owner repo branch : string),
    snd (run (fetchRepoTreeByBranch gh token owner repo branch))
    = match json (get_branch gh owner repo branch) with
      | Some sha =>
          if ok (get_branch gh owner repo branch) && JS.truthy sha
          then [GetBranch owner repo branch; GetTree owner repo sha]
          else [GetBranch owner repo branch]
      | None => [GetBranch owner repo branch]
      end
    /\ forall item tree,
         fst (run (fetchRepoTreeByBranch gh token owner repo branch)) = Return (item :: tree) ->
         exists sha, json (get_branch gh owner repo branch) = Some sha
                     /\ ok (get_branch gh owner repo branch) = true
                     /\ ok (get_tree gh owner repo sha) = true
                     /\ json (get_tree gh owner repo sha) = Some (item :: tree).
Proof.
  intros gh token owner repo branch. split; [apply fetchRepoTreeByBranch_log|].
  intros item tree. unfold run, fetchRepoTreeByBranch, bind, fetch, ret, throw.
  cbv beta iota.
  destruct (ok (get_branch gh owner repo branch)) eqn:Hb; cbn [negb].
  - destruct (json (get_branch gh owner repo branch)) as [sha|] eqn:Hsha; [|discriminate].
    destruct (JS.truthy sha); cbn [negb]; [|discriminate].
    destruct (ok (get_tree gh owner repo sha)) eqn:Ht; cbn [negb].
    + destruct (json (get_tree gh owner repo sha)) as [t|] eqn:Hjs; [|discriminate].
      cbn. intros [= ->]. exists sha. auto.
    + destruct (_ =? 409); discriminate.
  - destruct (_ =? 404); discriminate.
Qed.

Lemma fetchRepoTreeByBranch_calls_witness :
  fst (run (fetchRepoTreeByBranch Demo.gh "t" "u" "A" "main")) = Return [Demo.blob "main.go" 100]
  /\ exists sha, json (get_branch Demo.gh "u" "A" "main") = Some sha
                 /\ ok (get_branch Demo.gh "u" "A" "main") = true
                 /\ ok (get_tree Demo.gh "u" "A" sha) = true
                 /\ json (get_tree Demo.gh "u" "A" sha) = Some [Demo.blob "main.go" 100].
Proof.
  split; [reflexivity|].
  apply (proj2 (fetchRepoTreeByBranch_calls Demo.gh "t" "u" "A" "main")). reflexivity.
Defined.

(** X5. [aggregateRepos] is fail-fast in list order: it sends the calls of
    each name in turn, up to and including the first name whose tree is not
    resolved, and nothing for the names after it; the error it throws is the
    one of that first name, and without such a name it returns totals. *)
Theorem aggregateRepos_fails_fast :
  forall (languageMap : Catalog) (gh : Upstream) (token branch : string)
         (names : list string),
    snd (run (aggregateRepos languageMap gh token names branch))
    = flat_map (calls_for gh token branch) (through_first_failure gh token branch names)
    /\ match first_failure gh token branch names with
       | Some e => fst (run (aggregateRepos languageMap gh token names branch)) = Throw e
       | None => exists total,
           fst (run (aggregateRepos languageMap gh token names branch)) = Return total
       end.
Proof.
  intros. split; [apply aggregate_loop_log | apply aggregate_loop_first_failure].
Qed.

(** X6. [aggregateRepos] sends at most two calls for each listed name that
    splits into a non-empty owner and repository, and none for the others. *)
Theorem aggregateRepos_call_bound :
  forall (languageMap : Catalog) (gh : Upstream) (token branch : string)
         (names : list string),
    (length (snd (run (aggregateRepos languageMap gh token names branch)))
     <= 2 * length (filter well_formed names))%nat.
Proof.
  intros. unfold aggregateRepos. rewrite aggregate_loop_log.
  apply through_first_failure_log_length.
Qed.

(** X7. Names that do not split into a non-empty owner and a non-empty
    repository are ignored by [aggregateRepos]: dropping them from the list
    changes neither the outcome nor the calls. *)
Theorem aggregateRepos_ignores_malformed_names :
  forall (languageMap : Catalog) (gh : Upstream) (token branch : string)
         (names : list string),
    run (aggregateRepos languageMap gh token names branch)
    = run (aggregateRepos languageMap gh token (filter well_formed names) branch).
Proof.
  intros. apply aggregate_loop_skips_malformed.
Qed.

(** ** The handler, stage by stage *)

Section HandlerFacts.

Variable languageMap : Catalog.
Variable gh : Upstream.
Variable renderTopLanguages : list CardLang -> RenderOptions -> string.

(** The run of [handler] in direct style. *)
Lemma handler_run PAT_1 q :
  run (handler languageMap gh renderTopLanguages PAT_1 q)
  = if negb (JS.truthy_opt PAT_1) then (Return (mkReply 500 [] (Text "PAT_1 env not set")), [])
    else if negb (JS.truthy_opt (user q))
    then (Return (mkReply 400 [] (Text "Provide ?user=username")), [])
    else match run (listing gh PAT_1 q) with
         | (Throw e, l1) => (Return (mkReply 500 [] (ErrorMessage e)), l1)
         | (Return listed, l1) =>
             match selection q listed with
             | [] => (Return (mkReply 404 [] (Text "No repositories to analyze after filters.")),
                      l1)
             | names =>
                 match run (aggregateRepos languageMap gh (default "" PAT_1) names
                              (default "develop" (branch q))) with
                 | (Throw e, l2) => (Return (mkReply 500 [] (ErrorMessage e)), (l1 ++ l2)%list)
                 | (Return totals, l2) =>
                     (Return (mkReply 200 svg_headers
                                (Svg (renderTopLanguages (cards q totals)
                                        (render_options q
                                           (clamped_param (default "6" (langs_count q)) 6 1 20))))),
                      (l1 ++ l2)%list)
                 end
             end
         end.
Proof.
  unfold run, handler, catch_all, listing, selection.
  destruct (JS.truthy_opt PAT_1); cbn [negb]; [|reflexivity].
  destruct (JS.truthy_opt (user q)); cbn [negb]; [|reflexivity].
  unfold bind at 1.
  destruct (fetchAllUserRepos _ _ _ _ _ []) as [[listed|e] l1]; [|reflexivity].
  destruct (select_repos _ _ _) as [|n ns]; [reflexivity|].
  unfold bind, aggregateRepos.
  rewrite (aggregate_loop_appends languageMap gh _ _ (n :: ns) [] l1). unfold run.
  destruct (aggregate_loop _ _ _ _ _ _ []) as [[totals|e] l2]; reflexivity.
Qed.

Lemma handler_returns PAT_1 q :
  exists r, fst (run (handler languageMap gh renderTopLanguages PAT_1 q)) = Return r.
Proof.
  rewrite handler_run.
  destruct (negb (JS.truthy_opt PAT_1)); [eexists; reflexivity|].
  destruct (negb (JS.truthy_opt (user q))); [eexists; reflexivity|].
  destruct (run (listing gh PAT_1 q)) as [[listed|e] l1]; [|eexists; reflexivity].
  destruct (selection q listed) as [|n ns]; [eexists; reflexivity|].
  destruct (run (aggregateRepos _ _ _ _ _)) as [[totals|e] l2]; eexists; reflexivity.
Qed.


End HandlerFacts.

(** X8. [handler] always sends a reply, whatever the upstream does, and its
    status is 200, 400, 404 or 500. A 200 reply is a rendered card with the
    SVG content type and the cache header; every other reply has no header. *)
Theorem handler_always_replies :
  forall (languageMap : Catalog) (gh : Upstream)
         (renderTopLanguages : list CardLang -> RenderOptions -> string)
         (PAT_1 : option string) (q : Query),
  exists r,
    fst (run (handler languageMap gh renderTopLanguages PAT_1 q)) = Return r
    /\ (code r = 200 /\ headers r = svg_headers /\ (exists svg, body r = Svg svg)
        \/ (code r = 400 \/ code r = 404 \/ code r = 500) /\ headers r = []).
Proof.
  intros. rewrite handler_run.
  destruct (negb (JS.truthy_opt PAT_1)); [eexists; split; [reflexivity | simpl; tauto]|].
  destruct (negb (JS.truthy_opt (user q))); [eexists; split; [reflexivity | simpl; tauto]|].
  destruct (run (listing gh PAT_1 q)) as [[listed|e] l1];
    [|eexists; split; [reflexivity | simpl; tauto]].
  destruct (selection q listed) as [|n ns]; [eexists; split; [reflexivity | simpl; tauto]|].
  destruct (run (aggregateRepos _ _ _ _ _)) as [[totals|e] l2];
    eexists; (split; [reflexivity | simpl; eauto 6]).
Qed.



(** ** Selection of the repositories to analyse *)

Section SelectionFacts.

Lemma select_repos_filter listed exclude maxRepos :
  select_repos listed exclude maxRepos
  = JS.slice0 (filter (fun full => negb (set_has exclude (JS.toLowerCase (repo_part full))))
                      listed) maxRepos.
Proof.
  unfold select_repos. f_equal. apply filter_ext. intros full. unfold repo_part.
  destruct (JS.split _ full) as [|o [|r rest]]; reflexivity.
Qed.

Lemma in_select_repos listed exclude maxRepos full :
  In full (select_repos listed exclude maxRepos) ->
  In full listed /\ set_has exclude (JS.toLowerCase (repo_part full)) = false.
Proof.
  rewrite select_repos_filter. intros H. apply in_slice0, filter_In in H as [Hin Hk].
  split; [exact Hin | now apply negb_true_iff].
Qed.

Lemma filter_length_at_most {A} (f : A -> bool) l : (length (filter f l) <= length l)%nat.
Proof. induction l as [|x r IH]; simpl; [lia|]. destruct (f x); simpl; lia. Qed.

Lemma select_repos_length listed exclude maxRepos :
  0 <= maxRepos -> (length (select_repos listed exclude maxRepos) <= Z.to_nat maxRepos)%nat.
Proof.
  intros H. unfold select_repos. rewrite length_slice0 by assumption. apply Nat.le_min_l.
Qed.

Lemma selection_length q listed : (length (selection q listed) <= 300)%nat.
Proof.
  unfold selection.
  pose proof (clampValue_bounds
                (match JS.parseInt (default "60" (max_repos q)) with
                 | Some 0 | None => 60
                 | Some n => n
                 end) 1 300 ltac:(lia)) as Hb.
  fold (clamped_param (default "60" (max_repos q)) 60 1 300) in Hb.
  etransitivity; [apply select_repos_length; lia | lia].
Qed.

Lemma set_has_false_iff s x : set_has s x = false <-> ~ In x s.
Proof.
  unfold set_has. split.
  - intros H Hin. assert (existsb (String.eqb x) s = true); [|congruence].
    apply existsb_exists. exists x. split; [exact Hin | apply String.eqb_refl].
  - intros Hnin. destruct (existsb (String.eqb x) s) eqn:E; auto.
    apply existsb_exists in E as (y & Hin & Heq). apply String.eqb_eq in Heq. now subst.
Qed.

Lemma in_through_first_failure gh token branch names full :
  In full (through_first_failure gh token branch names) -> In full names.
Proof.
  induction names as [|n rest IH]; simpl; [tauto|].
  destruct (resolves gh token branch n); simpl; tauto.
Qed.

Lemma owner_repo_repo_part full owner repo :
  owner_repo full = (owner, Some repo) -> repo_part full = repo.
Proof.
  unfold owner_repo, repo_part.
  destruct (JS.split _ full) as [|o [|r rest]]; congruence.
Qed.

End SelectionFacts.

(** X10. With the credential and the user given, a listing that leaves no
    repository after the exclusion answers 404, and the only calls sent are
    those of the listing: no branch or tree is requested. *)
Theorem handler_nothing_to_analyse :
  forall (languageMap : Catalog) (gh : Upstream)
         (renderTopLanguages : list CardLang -> RenderOptions -> string)
         (PAT_1 : option string) (q : Query) (listed : list string),
    JS.truthy_opt PAT_1 = true ->
    JS.truthy_opt (user q) = true ->
    fst (run (listing gh PAT_1 q)) = Return listed ->
    selection q listed = [] ->
    run (handler languageMap gh renderTopLanguages PAT_1 q)
    = (Return (mkReply 404 [] (Text "No repositories to analyze after filters.")),
       snd (run (listing gh PAT_1 q))).
Proof.
  intros languageMap gh render PAT_1 q listed Htok Huser Hlist Hsel.
  rewrite handler_run, Htok, Huser. cbn [negb].
  destruct (run (listing gh PAT_1 q)) as [o l1]. cbn [fst snd] in *. subst o.
  now rewrite Hsel.
Qed.

Lemma handler_nothing_to_analyse_witness :
  JS.truthy_opt (Some "t") = true
  /\ JS.truthy_opt (user (excluding "u" "a, B")) = true
  /\ fst (run (listing Demo.gh (Some "t") (excluding "u" "a, B"))) = Return ["u/A"; "u/B"]
  /\ selection (excluding "u" "a, B") ["u/A"; "u/B"] = []
  /\ run (handler Demo.catalog Demo.gh Demo.render (Some "t") (excluding "u" "a, B"))
     = (Return (mkReply 404 [] (Text "No repositories to analyze after filters.")),
        [ListRepos "u" 1; ListRepos "u" 2]).
Proof.
  split; [reflexivity|]. split; [reflexivity|]. split; [reflexivity|]. split; [reflexivity|].
  apply (handler_nothing_to_analyse Demo.catalog Demo.gh Demo.render (Some "t")
           (excluding "u" "a, B") ["u/A"; "u/B"]); reflexivity.
Defined.

(** X11. [select_repos], given the lowered exclusion set of the handler,
    keeps listed names only, none whose repository part equals an excluded
    name when case is ignored (the owner part plays no role); it keeps at
    most [maxRepos] of them, and they are the first ones of the listing that
    are not excluded, in listing order. *)
Theorem select_repos_excludes_and_caps :
  forall (listed : list string) (excl : string) (maxRepos : Z),
    (forall full, In full (select_repos listed (lower_set excl) maxRepos) ->
                  In full listed
                  /\ forall x, In x (toArray excl) ->
                               JS.toLowerCase x <> JS.toLowerCase (repo_part full))
    /\ (0 <= maxRepos ->
        (length (select_repos listed (lower_set excl) maxRepos) <= Z.to_nat maxRepos)%nat)
    /\ exists rest,
         filter (fun full => negb (set_has (lower_set excl) (JS.toLowerCase (repo_part full))))
                listed
         = (select_repos listed (lower_set excl) maxRepos ++ rest)%list.
Proof.
  intros listed excl maxRepos. split; [|split].
  - intros full Hin. apply in_select_repos in Hin as [Hin Hex]. split; [exact Hin|].
    intros x Hx Heq. apply set_has_false_iff in Hex. apply Hex.
    unfold lower_set. rewrite <- Heq. now apply in_map.
  - apply select_repos_length.
  - rewrite select_repos_filter. unfold JS.slice0.
    destruct (maxRepos <? 0); eexists; symmetry; apply firstn_skipn.
Qed.

Lemma select_repos_excludes_and_caps_witness :
  In "u/Beta" (select_repos ["u/alpha"; "u/Beta"; "v/ALPHA"; "u/gamma"] (lower_set "Alpha") 2)
  /\ 0 <= 2
  /\ select_repos ["u/alpha"; "u/Beta"; "v/ALPHA"; "u/gamma"] (lower_set "Alpha") 2
     = ["u/Beta"; "u/gamma"]
  /\ (forall x, In x (toArray "Alpha") -> JS.toLowerCase x <> JS.toLowerCase (repo_part "u/Beta"))
  /\ (length (select_repos ["u/alpha"; "u/Beta"; "v/ALPHA"; "u/gamma"] (lower_set "Alpha") 2)
      <= Z.to_nat 2)%nat.
Proof.
  pose proof (select_repos_excludes_and_caps
                ["u/alpha"; "u/Beta"; "v/ALPHA"; "u/gamma"] "Alpha" 2) as (Hin & Hlen & _).
  assert (H : In "u/Beta" (select_repos ["u/alpha"; "u/Beta"; "v/ALPHA"; "u/gamma"]
                             (lower_set "Alpha") 2)) by (left; reflexivity).
  split; [exact H|]. split; [lia|]. split; [reflexivity|].
  split; [exact (proj2 (Hin "u/Beta" H)) | apply Hlen; lia].
Defined.

(** X12. Whatever the request and the upstream, [handler] sends at most 605
    calls: at most 5 listing requests and at most 2 calls for each of at most
    300 selected repositories ([max_repos] being clamped into [1, 300]). *)
Theorem handler_call_bound :
  forall (languageMap : Catalog) (gh : Upstream)
         (renderTopLanguages : list CardLang -> RenderOptions -> string)
         (PAT_1 : option string) (q : Query),
    (length (snd (run (handler languageMap gh renderTopLanguages PAT_1 q))) <= 605)%nat.
Proof.
  intros. rewrite handler_run.
  destruct (negb (JS.truthy_opt PAT_1)); [simpl; lia|].
  destruct (negb (JS.truthy_opt (user q))); [simpl; lia|].
  destruct (fetchAllUserRepos_log gh (default "" PAT_1) (default "" (user q))
              (toBool (include_forks q) false) (toBool (include_archived q) false))
    as (k & Hk & Hlog).
  fold (listing gh PAT_1 q) in Hlog.
  assert (Hl1 : (length (snd (run (listing gh PAT_1 q))) <= 5)%nat).
  { rewrite Hlog. unfold listing_calls. rewrite length_map, length_seq. lia. }
  destruct (run (listing gh PAT_1 q)) as [[listed|e] l1]; cbn [snd] in *; [|lia].
  pose proof (selection_length q listed) as Hsel.
  destruct (selection q listed) as [|n ns] eqn:Hs; [cbn [snd]; lia|].
  pose proof (aggregate_loop_log languageMap gh (default "" PAT_1)
                (default "develop" (branch q)) (n :: ns) []) as Hl2.
  pose proof (through_first_failure_log_length gh (default "" PAT_1)
                (default "develop" (branch q)) (n :: ns)) as Hb.
  pose proof (filter_length_at_most well_formed (n :: ns)) as Hf.
  fold (aggregateRepos languageMap gh (default "" PAT_1) (n :: ns)
          (default "develop" (branch q))) in Hl2.
  rewrite <- Hl2 in Hb.
  destruct (run (aggregateRepos _ _ _ _ _)) as [[totals|e] l2]; cbn [snd] in *;
    rewrite length_app; lia.
Qed.

(** X13. Every call that [handler] sends is allowed by the request: listings
    are for the requested user, and a branch or a tree is only ever requested
    for a repository whose name is not in [exclude_repos] (case ignored), the
    branch lookups being for the requested branch. *)
Theorem handler_never_contacts_excluded :
  forall (languageMap : Catalog) (gh : Upstream)
         (renderTopLanguages : list CardLang -> RenderOptions -> string)
         (PAT_1 : option string) (q : Query),
    forallb (call_respects q) (snd (run (handler languageMap gh renderTopLanguages PAT_1 q)))
    = true.
Proof.
  intros. rewrite handler_run.
  destruct (negb (JS.truthy_opt PAT_1)); [reflexivity|].
  destruct (negb (JS.truthy_opt (user q))); [reflexivity|].
  destruct (fetchAllUserRepos_log gh (default "" PAT_1) (default "" (user q))
              (toBool (include_forks q) false) (toBool (include_archived q) false))
    as (k & Hk & Hlog).
  fold (listing gh PAT_1 q) in Hlog.
  assert (Hl1 : forallb (call_respects q) (snd (run (listing gh PAT_1 q))) = true).
  { rewrite Hlog. apply forallb_forall. intros c Hc. unfold listing_calls in Hc.
    apply in_map_iff in Hc as (i & <- & _). simpl. apply String.eqb_refl. }
  destruct (run (listing gh PAT_1 q)) as [[listed|e] l1]; cbn [snd] in *; [|exact Hl1].
  destruct (selection q listed) as [|n ns] eqn:Hs; [exact Hl1|].
  assert (Hl2 : forallb (call_respects q)
                  (snd (run (aggregateRepos languageMap gh (default "" PAT_1) (n :: ns)
                               (default "develop" (branch q))))) = true).
  { unfold aggregateRepos. rewrite aggregate_loop_log. apply forallb_forall.
    intros c Hc. apply in_flat_map in Hc as (full & Hfull & Hc).
    apply in_through_first_failure in Hfull. rewrite <- Hs in Hfull.
    apply in_select_repos in Hfull as [_ Hex].
    unfold calls_for in Hc. destruct (owner_repo full) as [owner [repo|]] eqn:Hor.
    - apply owner_repo_repo_part in Hor. subst repo.
      destruct (negb (JS.truthy_opt owner) || negb (JS.truthy_opt (Some (repo_part full))));
        [destruct Hc|].
      rewrite fetchRepoTreeByBranch_log in Hc.
      destruct (json _) as [sha|]; [destruct (_ && _)|]; simpl in Hc;
        intuition (subst c; simpl; rewrite Hex, ?String.eqb_refl; reflexivity).
    - simpl in Hc. rewrite orb_true_r in Hc. destruct Hc. }
  destruct (run (aggregateRepos _ _ _ _ _)) as [[totals|e] l2]; cbn [snd] in *;
    rewrite forallb_app, Hl1, Hl2; reflexivity.
Qed.

(** ** Lists of words in a query parameter *)

Section WordFacts.

Lemma split_separator_free (sep : ascii -> bool) s :
  Forall (fun seg => all_chars (fun c => negb (sep c)) seg = true) (JS.split sep s).
Proof.
  induction s as [|c r IH]; simpl.
  - repeat constructor.
  - destruct (sep c) eqn:Hc.
    + constructor; [reflexivity | exact IH].
    + destruct (JS.split sep r) as [|seg segs].
      * repeat constructor. simpl. now rewrite Hc.
      * inversion IH as [|? ? Hseg Hsegs]; subst. constructor; [|exact Hsegs].
        simpl. now rewrite Hc, Hseg.
Qed.

Lemma split_single (sep : ascii -> bool) t :
  all_chars (fun c => negb (sep c)) t = true -> JS.split sep t = [t].
Proof.
  induction t as [|c r IH]; simpl; [reflexivity|].
  intros H. apply andb_prop in H as [Hc Hr]. apply negb_true_iff in Hc.
  now rewrite Hc, (IH Hr).
Qed.

Lemma split_word_then_separator (sep : ascii -> bool) t c rest :
  all_chars (fun c => negb (sep c)) t = true -> sep c = true ->
  JS.split sep (t ++ String c rest) = t :: JS.split sep rest.
Proof.
  intros Ht Hc. induction t as [|d r IH]; simpl.
  - now rewrite Hc.
  - simpl in Ht. apply andb_prop in Ht as [Hd Hr]. apply negb_true_iff in Hd.
    now rewrite Hd, (IH Hr).
Qed.

Lemma trim_right_spaceless s :
  all_chars (fun c => negb (JS.is_space c)) s = true -> JS.trim_right s = s.
Proof.
  induction s as [|c r IH]; simpl; [reflexivity|].
  intros H. apply andb_prop in H as [Hc Hr]. apply negb_true_iff in Hc.
  now rewrite (IH Hr), Hc.
Qed.

Lemma trim_spaceless s :
  all_chars (fun c => negb (JS.is_space c)) s = true -> JS.trim s = s.
Proof.
  intros H. unfold JS.trim.
  assert (Hl : JS.trim_left s = s).
  { destruct s as [|c r]; [reflexivity|]. simpl in *.
    apply andb_prop in H as [Hc _]. apply negb_true_iff in Hc. now rewrite Hc. }
  rewrite Hl. now apply trim_right_spaceless.
Qed.

Lemma all_chars_weaken (p p' : ascii -> bool) s :
  (forall c, p c = true -> p' c = true) -> all_chars p s = true -> all_chars p' s = true.
Proof.
  intros Hpp. induction s as [|c r IH]; simpl; [reflexivity|].
  intros H. apply andb_prop in H as [Hc Hr]. now rewrite (Hpp c Hc), (IH Hr).
Qed.

Lemma trim_separator_free s :
  all_chars (fun c => negb (list_separator c)) s = true -> JS.trim s = s.
Proof.
  intros H. apply trim_spaceless. revert H. apply all_chars_weaken.
  intros c. unfold list_separator. destruct (JS.is_space c); [|reflexivity].
  now rewrite orb_true_r.
Qed.

(** [toArray] without its shortcut for the empty string. *)
Lemma toArray_pieces q :
  toArray q = filter JS.truthy (map JS.trim (JS.split list_separator q)).
Proof.
  unfold toArray. destruct q as [|c r]; reflexivity.
Qed.

Lemma toArray_words q : Forall (fun t => word t = true) (toArray q).
Proof.
  rewrite toArray_pieces. apply Forall_forall. intros t Ht.
  apply filter_In in Ht as [Ht Htruthy]. apply in_map_iff in Ht as (seg & <- & Hseg).
  pose proof (proj1 (Forall_forall _ _) (split_separator_free list_separator q) seg Hseg) as Hfree.
  rewrite (trim_separator_free seg Hfree) in *. unfold word. now rewrite Htruthy, Hfree.
Qed.

Lemma pieces_of_joined toks :
  Forall (fun t => word t = true) toks ->
  filter JS.truthy (map JS.trim (JS.split list_separator (String.concat "," toks))) = toks.
Proof.
  induction 1 as [|t rest Ht Hrest IH]; [reflexivity|].
  unfold word in Ht. apply andb_prop in Ht as [Htruthy Hfree].
  destruct rest as [|t' rest'].
  - simpl String.concat. rewrite (split_single _ _ Hfree). simpl.
    now rewrite (trim_separator_free t Hfree), Htruthy.
  - change (String.concat "," (t :: t' :: rest'))
      with (t ++ String ","%char (String.concat "," (t' :: rest'))).
    rewrite (split_word_then_separator list_separator t ","%char _ Hfree eq_refl).
    simpl map. simpl filter.
    rewrite (trim_separator_free t Hfree), Htruthy. f_equal. exact IH.
Qed.

End WordFacts.

(** X14. Every piece that [toArray] returns is a word: it is not empty and
    holds no comma and no white space, whatever the parameter looks like
    (leading, trailing or repeated separators included). *)
Theorem toArray_returns_words :
  forall q : string, Forall (fun t => word t = true) (toArray q).
Proof. apply toArray_words. Qed.

(** X15. [toArray] reads back a comma-separated list: for words joined by
    commas it returns exactly those words, in order. *)
Theorem toArray_of_joined_words :
  forall toks : list string,
    Forall (fun t => word t = true) toks ->
    toArray (String.concat "," toks) = toks.
Proof.
  intros toks H. rewrite toArray_pieces. now apply pieces_of_joined.
Qed.

Lemma toArray_of_joined_words_witness :
  Forall (fun t => word t = true) ["TypeScript"; "C++"; "Objective-C"]
  /\ String.concat "," ["TypeScript"; "C++"; "Objective-C"] = "TypeScript,C++,Objective-C"
  /\ toArray "TypeScript,C++,Objective-C" = ["TypeScript"; "C++"; "Objective-C"].
Proof.
  assert (H : Forall (fun t => word t = true) ["TypeScript"; "C++"; "Objective-C"])
    by (repeat constructor).
  split; [exact H|]. split; [reflexivity|].
  exact (toArray_of_joined_words ["TypeScript"; "C++"; "Objective-C"] H).
Defined.

(** ** The classifier *)

Section ClassifierFacts.

Lemma lower_ascii_idempotent c : JS.lower_ascii (JS.lower_ascii c) = JS.lower_ascii c.
Proof. destruct c as [[] [] [] [] [] [] [] []]; reflexivity. Qed.

Lemma toLowerCase_idempotent s : JS.toLowerCase (JS.toLowerCase s) = JS.toLowerCase s.
Proof.
  induction s as [|c r IH]; simpl; [reflexivity|].
  now rewrite lower_ascii_idempotent, IH.
Qed.

Lemma first_language_sound cat ext L :
  first_language cat ext = Some L ->
  exists meta es e,
    In (L, meta) cat /\ extensions meta = Some es /\ In e es
    /\ JS.strip_leading_dot e = ext.
Proof.
  induction cat as [|[lang meta] r IH]; simpl; [discriminate|].
  destruct (claims_ext meta ext) eqn:Hc.
  - intros [= <-]. unfold claims_ext in Hc.
    destruct (extensions meta) as [es|] eqn:Hes; [|discriminate].
    apply existsb_exists in Hc as (e & He & Heq). apply String.eqb_eq in Heq.
    exists meta, es, e. auto.
  - intros H. destruct (IH H) as (m & es & e & Hin & Hrest).
    exists m, es, e. split; [now right | exact Hrest].
Qed.

Lemma lastIndexOf_from_absent c s : forall i last,
  all_chars (fun d => negb (Ascii.eqb d c)) s = true ->
  JS.lastIndexOf_from c s i last = last.
Proof.
  induction s as [|d r IH]; intros i last H; simpl in *; [reflexivity|].
  apply andb_prop in H as [Hd Hr]. apply negb_true_iff in Hd. rewrite Hd. now apply IH.
Qed.

Lemma lastIndexOf_from_last c s1 s2 : forall i last,
  all_chars (fun d => negb (Ascii.eqb d c)) s2 = true ->
  JS.lastIndexOf_from c (s1 ++ String c s2) i last = i + Z.of_nat (String.length s1).
Proof.
  induction s1 as [|d r IH]; intros i last H.
  - simpl. rewrite Ascii.eqb_refl, lastIndexOf_from_absent by assumption. lia.
  - simpl append. cbn [JS.lastIndexOf_from]. rewrite IH by assumption.
    cbn [String.length]. lia.
Qed.

Lemma drop_prefix s1 c s2 : JS.drop (S (String.length s1)) (s1 ++ String c s2) = s2.
Proof. induction s1 as [|d r IH]; simpl; [reflexivity | exact IH]. Qed.

End ClassifierFacts.

(** X16. A classification always comes from the catalog: when
    [extToLanguage] returns a language, the last dot of the name is not its
    first character, and that language has a catalog extension which,
    without its leading dot, is the lower-cased text after the last dot. In
    particular such an extension is written in lower case: a catalog
    extension with an upper-case letter never classifies a file. *)
Theorem extToLanguage_sound :
  forall (languageMap : Catalog) (filename L : string),
    extToLanguage languageMap filename = Some L ->
    0 < JS.lastIndexOf filename "."%char
    /\ exists meta es e,
         In (L, meta) languageMap /\ extensions meta = Some es /\ In e es
         /\ JS.strip_leading_dot e
            = JS.toLowerCase (JS.slice_from filename (JS.lastIndexOf filename "."%char + 1))
         /\ lower_case (JS.strip_leading_dot e) = true.
Proof.
  intros languageMap filename L. unfold extToLanguage.
  destruct (JS.lastIndexOf filename "."%char <=? 0) eqn:Hidx; [discriminate|].
  apply Z.leb_gt in Hidx. intros H. split; [exact Hidx|].
  destruct (first_language_sound _ _ _ H) as (meta & es & e & Hin & Hes & He & Heq).
  exists meta, es, e. repeat split; auto.
  unfold lower_case. rewrite Heq, toLowerCase_idempotent. apply String.eqb_refl.
Qed.

Lemma extToLanguage_sound_witness :
  extToLanguage Demo.catalog "cmd/Tool.GO" = Some "Go"
  /\ 0 < JS.lastIndexOf "cmd/Tool.GO" "."%char
  /\ exists meta es e,
       In ("Go", meta) Demo.catalog /\ extensions meta = Some es /\ In e es
       /\ JS.strip_leading_dot e
          = JS.toLowerCase (JS.slice_from "cmd/Tool.GO" (JS.lastIndexOf "cmd/Tool.GO" "."%char + 1))
       /\ lower_case (JS.strip_leading_dot e) = true.
Proof.
  split; [reflexivity|].
  apply (extToLanguage_sound Demo.catalog "cmd/Tool.GO" "Go"). reflexivity.
Defined.

(** X17. A name made of a non-empty stem, a dot and a dotless extension is
    classified by that extension alone, lower-cased: the result is the first
    catalog language that lists it, whatever the stem (directories included)
    and whatever the letter case of the extension. *)
Theorem extToLanguage_by_extension :
  forall (languageMap : Catalog) (stem ext : string),
    JS.truthy stem = true ->
    dotless ext = true ->
    extToLanguage languageMap (stem ++ String "."%char ext)
    = first_language languageMap (JS.toLowerCase ext).
Proof.
  intros languageMap stem ext Hstem Hext. unfold extToLanguage, JS.lastIndexOf.
  rewrite lastIndexOf_from_last by exact Hext.
  destruct stem as [|c r]; [discriminate|].
  assert (Hpos : (0 + Z.of_nat (String.length (String c r)) <=? 0) = false).
  { apply Z.leb_gt. cbn [String.length]. lia. }
  rewrite Hpos. unfold JS.slice_from.
  replace (Z.to_nat (0 + Z.of_nat (String.length (String c r)) + 1))
    with (S (String.length (String c r))) by lia.
  now rewrite drop_prefix.
Qed.

Lemma extToLanguage_by_extension_witness :
  JS.truthy "src/pkg.v2/Lib" = true
  /\ dotless "RS" = true
  /\ extToLanguage Demo.catalog "src/pkg.v2/Lib.RS" = Some "Rust".
Proof.
  split; [reflexivity|]. split; [reflexivity|].
  change "src/pkg.v2/Lib.RS" with ("src/pkg.v2/Lib" ++ String "."%char "RS").
  rewrite (extToLanguage_by_extension Demo.catalog "src/pkg.v2/Lib" "RS" eq_refl eq_refl).
  reflexivity.
Defined.

(** ** Aggregation composes *)

(** X18. Aggregating the concatenation of two trees gives, for every
    language, the same total as merging the totals of the second tree into
    those of the first, as the loop of [aggregateRepos] does: counting
    repositories apart and summing is counting their files together. *)
Theorem aggregate_concatenation_is_merge :
  forall (languageMap : Catalog) (tree1 tree2 : list TreeEntry) (L : string),
    Obj.get L (aggregateByLanguageFromTree languageMap (tree1 ++ tree2))
    = Obj.get L (merge_totals (aggregateByLanguageFromTree languageMap tree1)
                              (aggregateByLanguageFromTree languageMap tree2)).
Proof.
  intros languageMap tree1 tree2 L.
  rewrite merge_totals_get by apply aggregate_nodup.
  unfold Obj.get_or0. rewrite !aggregate_get, existsb_app, filter_app.
  assert (Hsum : forall a b, sum_sizes (a ++ b) = sum_sizes a + sum_sizes b).
  { intros a b. induction a as [|x r IH]; simpl; [reflexivity | rewrite IH; lia]. }
  rewrite Hsum.
  assert (Hnone : forall t, existsb (counts_for languageMap L) t = false ->
                            sum_sizes (filter (counts_for languageMap L) t) = 0).
  { intros t. induction t as [|x r IH]; simpl; [reflexivity|].
    intros H. apply orb_false_elim in H as [Hx Hr]. rewrite Hx. auto. }
  destruct (JS.truthy L); simpl; [|reflexivity].
  destruct (existsb _ tree1) eqn:E1, (existsb _ tree2) eqn:E2; simpl;
    rewrite ?(Hnone _ E1), ?(Hnone _ E2); f_equal; lia.
Qed.

(** ** Order of ties and percentages *)

Section SortFacts.

Lemma insert_desc_keeps_ties a l v :
  filter (fun kv => snd kv =? v) (insert_desc a l)
  = filter (fun kv : string * Z => snd kv =? v) (a :: l).
Proof.
  induction l as [|b r IH]; [reflexivity|].
  cbn [insert_desc]. destruct (0 <? snd b - snd a) eqn:E; [|reflexivity].
  apply Z.ltb_lt in E. cbn [filter] in *. rewrite IH.
  destruct (snd a =? v) eqn:Ea, (snd b =? v) eqn:Eb; try reflexivity.
  apply Z.eqb_eq in Ea, Eb. lia.
Qed.

Lemma sort_desc_keeps_ties l v :
  filter (fun kv => snd kv =? v) (sort_desc l) = filter (fun kv : string * Z => snd kv =? v) l.
Proof.
  induction l as [|a r IH]; [reflexivity|].
  cbn [sort_desc fold_right]. fold (sort_desc r). rewrite insert_desc_keeps_ties.
  cbn [filter]. now rewrite IH.
Qed.

Lemma percent_total_map d top :
  d <> 0 ->
  (percent_total (map (fun kv => Ranked.mk (fst kv) (snd kv)
                                   (inject_Z (snd kv) / inject_Z d * 100)%Q) top)
   == inject_Z (fold_right (fun kv acc => (snd kv + acc)%Z) 0%Z top) / inject_Z d * 100)%Q.
Proof.
  intros Hd.
  assert (Hq : ~ (inject_Z d == 0)%Q) by (unfold Qeq; simpl; lia).
  induction top as [|kv r IH]; simpl.
  - field. exact Hq.
  - rewrite IH, inject_Z_plus. field. exact Hq.
Qed.

Lemma summand_at_most_sum (top : list (string * Z)) kv :
  Forall (fun e => 0 <= snd e) top -> In kv top ->
  0 <= snd kv <= fold_right (fun e acc => snd e + acc) 0 top.
Proof.
  induction 1 as [|e r He Hr IH]; simpl; [tauto|].
  assert (Hsum : 0 <= fold_right (fun e acc => snd e + acc) 0 r).
  { clear -Hr. induction Hr; simpl; lia. }
  intros [->|Hin]; [lia|]. specialize (IH Hin). lia.
Qed.

Lemma share_bounds s t : 0 <= s <= t -> 0 < t ->
  (0 <= inject_Z s / inject_Z t * 100 <= 100)%Q.
Proof.
  intros Hs Ht. destruct t as [|p|p]; try lia.
  unfold Qle, Qdiv, Qmult, Qinv, inject_Z. simpl. split; nia.
Qed.

End SortFacts.

(** X19. The order of the ranking is that of a stable sort by descending
    size: [sort_desc] rearranges the entries, sizes never go up along the
    result, and languages of equal size stay in the order in which the totals
    list them. *)
Theorem sort_desc_stable :
  forall (entries : list (string * Z)),
    Permutation (sort_desc entries) entries
    /\ descending (sort_desc entries)
    /\ forall v, filter (fun kv => snd kv =? v) (sort_desc entries)
                 = filter (fun kv => snd kv =? v) entries.
Proof.
  intros entries. split; [apply sort_desc_permutation|].
  split; [apply sort_desc_descending | intros v; apply sort_desc_keeps_ties].
Qed.

(** X20. When the sizes of the returned items do not sum to 0, the
    percentages that [rank] computes add up to 100; and when no total is
    negative, each of them lies between 0 and 100. *)
Theorem rank_percentages_sum_to_100 :
  forall (totals : Obj.t) (hideList : list string) (topN : Z),
    ranked_total (rank totals hideList topN) <> 0 ->
    (percent_total (rank totals hideList topN) == 100)%Q
    /\ ((forall kv, In kv totals -> 0 <= snd kv) ->
        forall it, In it (rank totals hideList topN) ->
                   (0 <= Ranked.percent it <= 100)%Q).
Proof.
  intros totals hideList topN Hne. rewrite ranked_total_rank in Hne.
  assert (Hz : (total_bytes (top_entries totals hideList topN) =? 0) = false)
    by now apply Z.eqb_neq.
  split.
  - unfold rank. cbv zeta. rewrite Hz.
    rewrite percent_total_map by exact Hne. rewrite <- total_bytes_sum.
    field. unfold Qeq. simpl. lia.
  - intros Hpos it Hin. apply in_rank in Hin as [Hin Hpct]. rewrite Hpct, Hz.
    assert (Hall : Forall (fun e => 0 <= snd e) (top_entries totals hideList topN)).
    { apply Forall_forall. intros e He. apply in_top_entries in He as [He _]. auto. }
    pose proof (summand_at_most_sum _ _ Hall Hin) as Hs. simpl in Hs.
    rewrite <- total_bytes_sum in Hs.
    apply share_bounds; [exact Hs | lia].
Qed.

Lemma rank_percentages_sum_to_100_witness :
  ranked_total (rank three_totals [] 2) <> 0
  /\ (percent_total (rank three_totals [] 2) == 100)%Q
  /\ (forall kv, In kv three_totals -> 0 <= snd kv)
  /\ (0 <= inject_Z 30 / inject_Z 180 * 100 <= 100)%Q.
Proof.
  assert (Hne : ranked_total (rank three_totals [] 2) <> 0)
    by (simpl; lia).
  assert (Hpos : forall kv, In kv three_totals -> 0 <= snd kv).
  { intros kv [<-|[<-|[<-|[]]]]; simpl; lia. }
  destruct (rank_percentages_sum_to_100 three_totals [] 2 Hne)
    as [Hsum Hbounds].
  split; [exact Hne|]. split; [exact Hsum|]. split; [exact Hpos|].
  apply (Hbounds Hpos (Ranked.mk "Rust" 30 (inject_Z 30 / inject_Z 180 * 100)%Q)).
  right. left. reflexivity.
Defined.

(** ** Complete listings *)

Section CompleteListing.

Variable gh : Upstream.
Variable user : string.
Variables includeForks includeArchived : bool.

Lemma list_pages_complete k : forall pages page acc,
  (k <= pages)%nat ->
  (forall i, (i < k)%nat -> full_page gh user (page + Z.of_nat i) = true) ->
  k = pages \/ last_page gh user (page + Z.of_nat k) = true ->
  fst (run (list_pages gh user includeForks includeArchived pages page acc))
  = Return (acc ++ kept_of_pages gh user includeForks includeArchived page k)%list.
Proof.
  induction k as [|k IH]; intros pages page acc Hk Hfull Hstop.
  - unfold kept_of_pages. simpl. rewrite app_nil_r.
    destruct pages as [|p]; [reflexivity|].
    destruct Hstop as [Heq|Hlast]; [discriminate|].
    rewrite Z.add_0_r in Hlast. unfold last_page, page_body in Hlast.
    apply andb_prop in Hlast as [Hok Hempty].
    simpl list_pages. unfold run, bind, fetch. rewrite Hok. cbn [negb].
    destruct (json (list_repos gh user page)) as [[|repo js]|]; try reflexivity.
    discriminate.
  - destruct pages as [|p]; [lia|].
    pose proof (Hfull 0%nat ltac:(lia)) as H0. rewrite Z.add_0_r in H0.
    unfold full_page, page_body in H0. apply andb_prop in H0 as [Hok Hne].
    simpl list_pages. rewrite run_bind.
    2: { intros x. destruct (negb (ok x)); [apply appends_only_throw|].
         destruct (json x) as [[|repo js]|]; try apply appends_only_ret.
         apply list_pages_appends. }
    unfold run at 1, fetch. cbn [fst]. rewrite Hok. cbn [negb].
    destruct (json (list_repos gh user page)) as [[|repo js]|] eqn:Hjs; try discriminate.
    rewrite (IH p (page + 1)).
    + f_equal. rewrite <- app_assoc. f_equal.
      unfold kept_of_pages. cbn [seq flat_map]. change (Z.of_nat 0) with 0.
      rewrite Z.add_0_r. unfold page_body. rewrite Hjs. f_equal.
      rewrite <- seq_shift.
      induction (seq 0 k) as [|i r IHr]; [reflexivity|].
      cbn [map flat_map]. rewrite IHr.
      replace (page + Z.of_nat (S i)) with (page + 1 + Z.of_nat i) by lia. reflexivity.
    + lia.
    + intros i Hi. specialize (Hfull (S i) ltac:(lia)).
      now replace (page + 1 + Z.of_nat i) with (page + Z.of_nat (S i)) by lia.
    + destruct Hstop as [Heq|Hlast]; [left; lia | right].
      now replace (page + 1 + Z.of_nat k) with (page + Z.of_nat (S k)) by lia.
Qed.

End CompleteListing.

(** X21. When the first [k] pages of the listing are answered with success
    and are not empty, and either [k] is 5 or the next page is answered with
    success and is empty, [fetchAllUserRepos] returns the full names of the
    repositories of those [k] pages that pass the fork and archive filters,
    page after page, in the order in which they are listed. *)
Theorem fetchAllUserRepos_complete :
  forall (gh : Upstream) (token user : string) (includeForks includeArchived : bool)
         (k : nat),
    (k <= 5)%nat ->
    (forall i, (i < k)%nat -> full_page gh user (1 + Z.of_nat i) = true) ->
    k = 5%nat \/ last_page gh user (1 + Z.of_nat k) = true ->
    fst (run (fetchAllUserRepos gh token user includeForks includeArchived))
    = Return (map full_name (kept_of_pages gh user includeForks includeArchived 1 k)).
Proof.
  intros gh token user f a k Hk Hfull Hstop.
  unfold fetchAllUserRepos. rewrite run_bind by (intros; apply appends_only_ret).
  pose proof (list_pages_complete gh user f a k 5 1 [] Hk Hfull Hstop) as H.
  destruct (run (list_pages gh user f a 5 1 [])) as [o l]. cbn [fst] in *. subst o.
  reflexivity.
Qed.

Lemma fetchAllUserRepos_complete_witness :
  (2 <= 5)%nat
  /\ (forall i, (i < 2)%nat -> full_page two_pages "u" (1 + Z.of_nat i) = true)
  /\ last_page two_pages "u" (1 + Z.of_nat 2) = true
  /\ map full_name (kept_of_pages two_pages "u" false false 1 2) = ["u/A"; "u/B"]
  /\ fst (run (fetchAllUserRepos two_pages "t" "u" false false)) = Return ["u/A"; "u/B"].
Proof.
  assert (Hfull : forall i, (i < 2)%nat -> full_page two_pages "u" (1 + Z.of_nat i) = true).
  { intros [|[|i]] Hi; [reflexivity | reflexivity | lia]. }
  split; [lia|]. split; [exact Hfull|]. split; [reflexivity|]. split; [reflexivity|].
  rewrite (fetchAllUserRepos_complete two_pages "t" "u" false false 2
             ltac:(lia) Hfull (or_intror eq_refl)).
  reflexivity.
Defined.

(** ** Runs that end in a card *)

Section CardFacts.

Variable languageMap : Catalog.
Variable gh : Upstream.
Variable renderTopLanguages : list CardLang -> RenderOptions -> string.

Lemma yields_no_tree_totals token branch full :
  yields_no_tree gh token branch full = true ->
  resolves gh token branch full = true
  /\ repo_totals languageMap gh token branch full = [].
Proof.
  unfold yields_no_tree, resolves, repo_totals.
  destruct (resolved gh token branch full) as [[[|item tree]|e]|]; try discriminate; auto.
Qed.

Lemma aggregateRepos_no_tree token branch names :
  forallb (yields_no_tree gh token branch) names = true ->
  fst (run (aggregateRepos languageMap gh token names branch)) = Return [].
Proof.
  intros H. unfold run, aggregateRepos. rewrite aggregate_loop_returns.
  - f_equal. induction names as [|full rest IH]; [reflexivity|].
    simpl in H. apply andb_prop in H as [Hf Hr]. cbn [map fold_left].
    rewrite (proj2 (yields_no_tree_totals _ _ _ Hf)), merge_totals_nil. now apply IH.
  - apply forallb_forall. intros full Hin.
    rewrite forallb_forall in H. apply (yields_no_tree_totals _ _ _ (H full Hin)).
Qed.

Lemma cards_of_nothing q : cards q [] = [].
Proof.
  unfold cards, rank, top_entries, JS.slice0. simpl.
  destruct (_ <? 0); now rewrite firstn_nil.
Qed.

Lemma color_of_truthy name : JS.truthy (color_of languageMap name) = true.
Proof.
  unfold color_of. destruct (find _ languageMap) as [[k meta]|]; [|reflexivity].
  destruct (JS.truthy_opt (color meta)) eqn:E; [|reflexivity].
  destruct (color meta) as [c|]; [exact E | discriminate].
Qed.

Lemma hidden_key_absent hideList totals k :
  set_has hideList (JS.toLowerCase k) = true ->
  Obj.get k (hide_languages hideList totals) = None.
Proof.
  intros Hk. rewrite hide_languages_filter. apply get_none_iff. intros Hin.
  unfold Obj.keys in Hin. apply in_map_iff in Hin as ([k' v] & Heq & Hkv).
  simpl in Heq. subst k'. apply filter_In in Hkv as [_ Hvis].
  unfold visible in Hvis. simpl in Hvis. rewrite Hk in Hvis. discriminate.
Qed.

(** The run of the variant once the totals are there. *)
Lemma handler_variant_success PAT_1 q listed totals :
  JS.truthy_opt PAT_1 = true ->
  JS.truthy_opt (user q) = true ->
  fst (run (listing gh PAT_1 q)) = Return listed ->
  selection q listed <> [] ->
  fst (run (aggregateRepos languageMap gh (default "" PAT_1) (selection q listed)
              (default "develop" (branch q)))) = Return totals ->
  fst (run (handler_variant languageMap gh renderTopLanguages PAT_1 q))
  = Return (if toBool (debug q) false
            then mkReply 200 json_headers
                   (DebugJson (default "develop" (branch q)) (selection q listed)
                      (hide_languages (lower_set (default "" (hide q))) totals)
                      (variant_cards languageMap q totals))
            else mkReply 200 svg_headers
                   (Svg (renderTopLanguages (variant_cards languageMap q totals)
                           (render_options q
                              (clamped_param (default "6" (langs_count q)) 6 1 20))))).
Proof.
  intros Htok Huser Hlist Hsel Hagg.
  unfold run, handler_variant, catch_all in *. rewrite Htok, Huser. cbn [negb].
  unfold bind at 1. unfold listing in Hlist. fold (selection q) in *.
  destruct (fetchAllUserRepos _ _ _ _ _ []) as [[listed'|e] l1]; cbn [fst] in Hlist;
    [|discriminate].
  injection Hlist as ->. unfold selection in *.
  destruct (select_repos _ _ _) as [|n ns]; [congruence|].
  unfold bind, aggregateRepos in *.
  rewrite (aggregate_loop_appends languageMap gh _ _ (n :: ns) [] l1). unfold run.
  destruct (aggregate_loop _ _ _ _ _ _ []) as [[totals'|e] l2]; cbn [fst] in Hagg;
    [|discriminate].
  injection Hagg as ->.
  destruct (toBool (debug q) false); reflexivity.
Qed.

End CardFacts.

(** X22. A missing branch is not an error for the request either: when every
    selected repository is skipped or resolves to the empty tree (its branch
    is missing, it has no commit, or it is empty), [handler] answers 200 with
    a card rendered from an empty list of languages. *)
Theorem handler_renders_empty_card :
  forall (languageMap : Catalog) (gh : Upstream)
         (renderTopLanguages : list CardLang -> RenderOptions -> string)
         (PAT_1 : option string) (q : Query) (listed : list string),
    JS.truthy_opt PAT_1 = true ->
    JS.truthy_opt (user q) = true ->
    fst (run (listing gh PAT_1 q)) = Return listed ->
    selection q listed <> [] ->
    forallb (yields_no_tree gh (default "" PAT_1) (default "develop" (branch q)))
            (selection q listed) = true ->
    fst (run (handler languageMap gh renderTopLanguages PAT_1 q))
    = Return (mkReply 200 svg_headers
                (Svg (renderTopLanguages []
                        (render_options q
                           (clamped_param (default "6" (langs_count q)) 6 1 20))))).
Proof.
  intros languageMap gh render PAT_1 q listed Htok Huser Hlist Hsel Hnone.
  rewrite handler_run, Htok, Huser. cbn [negb].
  destruct (run (listing gh PAT_1 q)) as [o l1]. cbn [fst] in Hlist. subst o.
  pose proof (aggregateRepos_no_tree languageMap gh _ _ _ Hnone) as Hagg.
  destruct (selection q listed) as [|n ns]; [congruence|].
  destruct (run (aggregateRepos _ _ _ _ _)) as [o l2]. cbn [fst] in Hagg. subst o.
  cbn [fst]. now rewrite cards_of_nothing.
Qed.

Lemma handler_renders_empty_card_witness :
  fst (run (listing (serving ["u/missing"; "u/nosha"; "u/empty"]) (Some "t") (Demo.for_user "u")))
  = Return ["u/missing"; "u/nosha"; "u/empty"]
  /\ selection (Demo.for_user "u") ["u/missing"; "u/nosha"; "u/empty"]
     = ["u/missing"; "u/nosha"; "u/empty"]
  /\ forallb (yields_no_tree (serving ["u/missing"; "u/nosha"; "u/empty"]) "t" "develop")
             ["u/missing"; "u/nosha"; "u/empty"] = true
  /\ reply_code (handler Demo.catalog (serving ["u/missing"; "u/nosha"; "u/empty"]) Demo.render
                   (Some "t") (Demo.for_user "u")) = Some 200.
Proof.
  split; [reflexivity|]. split; [reflexivity|]. split; [reflexivity|].
  unfold reply_code.
  rewrite (handler_renders_empty_card Demo.catalog
             (serving ["u/missing"; "u/nosha"; "u/empty"]) Demo.render (Some "t")
             (Demo.for_user "u") ["u/missing"; "u/nosha"; "u/empty"]);
    try reflexivity.
  discriminate.
Defined.

(** X23. In debug mode a successful run of the variant answers 200 with a
    JSON dump of the branch, the selected repositories, the totals and the
    cards. The dumped totals hold no hidden language; there are at most 20
    cards, each with a non-empty colour, and their names and sizes are those
    that [handler] hands to the renderer, in the same order. *)
Theorem handler_variant_debug_dump :
  forall (languageMap : Catalog) (gh : Upstream)
         (renderTopLanguages : list CardLang -> RenderOptions -> string)
         (PAT_1 : option string) (q : Query) (listed : list string) (totals : Obj.t),
    JS.truthy_opt PAT_1 = true ->
    JS.truthy_opt (user q) = true ->
    fst (run (listing gh PAT_1 q)) = Return listed ->
    selection q listed <> [] ->
    fst (run (aggregateRepos languageMap gh (default "" PAT_1) (selection q listed)
                (default "develop" (branch q)))) = Return totals ->
    toBool (debug q) false = true ->
    fst (run (handler_variant languageMap gh renderTopLanguages PAT_1 q))
    = Return (mkReply 200 json_headers
                (DebugJson (default "develop" (branch q)) (selection q listed)
                   (hide_languages (lower_set (default "" (hide q))) totals)
                   (variant_cards languageMap q totals)))
    /\ (forall k, set_has (lower_set (default "" (hide q))) (JS.toLowerCase k) = true ->
                  Obj.get k (hide_languages (lower_set (default "" (hide q))) totals) = None)
    /\ (length (variant_cards languageMap q totals) <= 20)%nat
    /\ Forall (fun c => exists col, card_color c = Some col /\ JS.truthy col = true)
              (variant_cards languageMap q totals)
    /\ map card_entry (variant_cards languageMap q totals) = map card_entry (cards q totals).
Proof.
  intros languageMap gh render PAT_1 q listed totals Htok Huser Hlist Hsel Hagg Hdebug.
  split; [|split; [|split; [|split]]].
  - rewrite (handler_variant_success languageMap gh render PAT_1 q listed totals) by assumption.
    now rewrite Hdebug.
  - intros k. apply hidden_key_absent.
  - unfold variant_cards. rewrite length_map.
    pose proof (clampValue_bounds
                  (match JS.parseInt (default "6" (langs_count q)) with
                   | Some 0 | None => 6
                   | Some n => n
                   end) 1 20 ltac:(lia)) as Hb.
    fold (clamped_param (default "6" (langs_count q)) 6 1 20) in Hb.
    rewrite length_slice0 by lia. lia.
  - unfold variant_cards. apply Forall_forall. intros c Hc.
    apply in_map_iff in Hc as (kv & <- & _). simpl. eexists. split; [reflexivity|].
    apply color_of_truthy.
  - unfold variant_cards, cards, card_entry. rewrite !map_map. simpl.
    fold (top_entries totals (lower_set (default "" (hide q)))
            (clamped_param (default "6" (langs_count q)) 6 1 20)).
    rewrite <- rank_entries, map_map. reflexivity.
Qed.

Lemma handler_variant_debug_dump_witness :
  fst (run (listing Demo.gh (Some "t") (debugging "u" "rust")))
  = Return ["u/A"; "u/B"]
  /\ selection (debugging "u" "rust") ["u/A"; "u/B"] = ["u/A"; "u/B"]
  /\ fst (run (aggregateRepos Demo.catalog Demo.gh "t" ["u/A"; "u/B"] "develop"))
     = Return [("Go", 150); ("Rust", 30)]
  /\ toBool (debug (debugging "u" "rust")) false = true
  /\ fst (run (handler_variant Demo.catalog Demo.gh Demo.render (Some "t")
                 (debugging "u" "rust")))
     = Return (mkReply 200 json_headers
                 (DebugJson "develop" ["u/A"; "u/B"] [("Go", 150)]
                    [mkCardLang "Go" 150 (Some "#858585")])).
Proof.
  split; [reflexivity|]. split; [reflexivity|]. split; [reflexivity|]. split; [reflexivity|].
  rewrite (proj1 (handler_variant_debug_dump Demo.catalog Demo.gh Demo.render (Some "t")
                    (debugging "u" "rust") ["u/A"; "u/B"] [("Go", 150); ("Rust", 30)]
                    eq_refl eq_refl eq_refl ltac:(discriminate) eq_refl eq_refl)).
  reflexivity.
Defined.
